(** * ai-newsletter-generator: a shallow embedding of [app.py]

    The development follows the source file: text and the fragment of
    Python's [re] module that [remove_think_content] uses, the think-tag
    filter, the Markdown export, the [Counter] ranking of news sources, and
    the effectful part (language-model calls, the news request, Streamlit's
    session state and messages) as a state monad over an explicit world.
    Definitions come first, then the facts about them, then the properties
    of the specification, one theorem each. *)

From Stdlib Require Import String Ascii List Arith Bool Lia.
From Stdlib Require Import Sorting.Sorted Sorting.Permutation DecimalString.
From Equations Require Import Equations.
Import ListNotations.

Open Scope list_scope.
Open Scope string_scope.

(** * Part I: the program *)

(** ** Text

    A Python [str] is modelled as a [string] of 8-bit characters.  The
    markers of the filter are ASCII, and nothing below depends on which
    other characters a text holds. *)

Module Text.

(** The rest of [s] behind the literal [m], when [s] starts with [m]. *)
Fixpoint strip_prefix (m s : string) : option string :=
  match m, s with
  | EmptyString, _ => Some s
  | String a m', String b s' =>
      if Ascii.eqb a b then strip_prefix m' s' else None
  | String _ _, EmptyString => None
  end.

Definition starts_with (m s : string) : bool :=
  match strip_prefix m s with Some _ => true | None => false end.

(** Python's [m in s] on [str]. *)
Fixpoint contains (m s : string) : bool :=
  starts_with m s ||
  match s with
  | EmptyString => false
  | String _ s' => contains m s'
  end.

(** [c] does not occur in [s]. *)
Fixpoint fresh (c : ascii) (s : string) : bool :=
  match s with
  | EmptyString => true
  | String a s' => negb (Ascii.eqb c a) && fresh c s'
  end.

(** The line feed, Python's ["\n"]. *)
Definition nl : string := String (ascii_of_nat 10) EmptyString.

(** [str(n)] of a natural number. *)
Definition of_nat (n : nat) : string := NilZero.string_of_uint (Nat.to_uint n).

End Text.

(** ** The fragment of [re] used by the filter *)

Module Re.

(** Character sets: [\s], [\S], a bracketed union such as [[\s\S]], and
    the dot. *)
Inductive cset : Type :=
| Space
| NonSpace
| Union (a b : cset)
| Dot.

(** Pattern items: a literal run of characters and the lazy star [X*?] of
    a character set.  A pattern is a sequence of items. *)
Inductive item : Type :=
| Lit (s : string)
| LazyStar (cs : cset).

Definition pattern := list item.

(** The flags [re.sub] is called with; only [re.DOTALL] occurs. *)
Record flags : Type := { DOTALL : bool }.

Definition no_flags : flags := {| DOTALL := false |}.
Definition dotall : flags := {| DOTALL := true |}.

(** The characters [\s] takes, among the 256 of [ascii]: \t, \n, \v, \f,
    \r, the four separators 28 to 31, the space, and the characters 133 and
    160. *)
Definition is_space (c : ascii) : bool :=
  let n := nat_of_ascii c in
  ((n =? 32) || ((9 <=? n) && (n <=? 13)) || ((28 <=? n) && (n <=? 31))
   || (n =? 133) || (n =? 160))%nat.

Fixpoint cset_match (fl : flags) (cs : cset) (c : ascii) : bool :=
  match cs with
  | Space => is_space c
  | NonSpace => negb (is_space c)
  | Union a b => cset_match fl a c || cset_match fl b c
  | Dot => DOTALL fl || negb (nat_of_ascii c =? 10)%nat
  end.

(** Backtracking match of a pattern at the head of [s]; the result is the
    text left behind the match.  The lazy star first tries the rest of the
    pattern where it stands and takes one more character only when that
    fails. *)
Fixpoint match_here (fl : flags) (p : pattern) : string -> option string :=
  match p with
  | [] => fun s => Some s
  | Lit m :: p' => fun s =>
      match Text.strip_prefix m s with
      | Some s' => match_here fl p' s'
      | None => None
      end
  | LazyStar cs :: p' =>
      fix star (s : string) : option string :=
        match match_here fl p' s with
        | Some r => Some r
        | None =>
            match s with
            | EmptyString => None
            | String c s' => if cset_match fl cs c then star s' else None
            end
        end
  end.

(** [re.sub(p, "", s, flags=fl)]: scan from the left; a match that takes at
    least one character is dropped and the scan goes on behind it; elsewhere
    the character is kept. *)
Equations sub (fl : flags) (p : pattern) (s : string) : string
  by wf (String.length s) lt :=
sub fl p EmptyString := EmptyString;
sub fl p (String c s') with match_here fl p (String c s') := {
  | Some r with le_lt_dec (String.length (String c s')) (String.length r) := {
      | left _ => String c (sub fl p s')
      | right _ => sub fl p r };
  | None => String c (sub fl p s') }.

End Re.


(** ** Prompt templates *)

(** A template with one or two placeholders is kept as the text around
    them; filling it puts the values where the placeholders stand. *)
Module Template.

Definition NEWSLETTER_before : string := "
Write a professional AI and Data Analytics newsletter with the following topic:
".
Definition NEWSLETTER_after : string := "

Format it with:
1. Headline
2. Introduction
3. Main content with subsections
4. Key takeaways

Write in a clear, professional style. Provide the newsletter content directly without any meta-commentary.
If you need to think through your process, wrap that text in <think> tags.
".

Definition SECTION_before : string := "
Here is a newsletter section:
".
Definition REFINEMENT_middle : string := "

Revise it according to these instructions:
".
Definition REFINEMENT_after : string := "

Provide only the revised content without any explanations.
If you need to think through your process, wrap that text in <think> tags.
".
Definition ENTERTAINMENT_after : string := "

Revise it to make it more entertaining and engaging for readers interested in AI and Data Analytics. Use a lively tone and add interesting anecdotes or examples where appropriate.

Provide only the revised content without any explanations.
If you need to think through your process, wrap that text in <think> tags.
".

(** [NEWSLETTER_TEMPLATE] with [{user_input}] filled in. *)
Definition NEWSLETTER (user_input : string) : string :=
  NEWSLETTER_before ++ user_input ++ NEWSLETTER_after.

(** [REFINEMENT_TEMPLATE] with [{current_content}] and
    [{refinement_instructions}] filled in. *)
Definition REFINEMENT (current_content refinement_instructions : string) : string :=
  SECTION_before ++ current_content ++ REFINEMENT_middle
    ++ refinement_instructions ++ REFINEMENT_after.

(** [ENTERTAINMENT_TEMPLATE] with [{current_content}] filled in. *)
Definition ENTERTAINMENT (current_content : string) : string :=
  SECTION_before ++ current_content ++ ENTERTAINMENT_after.

End Template.

(** ** [remove_think_content] *)

Definition START : string := "<think>".
Definition END_ : string := "</think>".

(** [r'<think>[\s\S]*?</think>'] *)
Definition pattern : Re.pattern :=
  [Re.Lit "<think>"; Re.LazyStar (Re.Union Re.Space Re.NonSpace); Re.Lit "</think>"].

(** [r'<think>.*?</think>'], which the source uses with [flags=re.DOTALL]. *)
Definition pattern_dot : Re.pattern :=
  [Re.Lit "<think>"; Re.LazyStar Re.Dot; Re.Lit "</think>"].

Definition remove_think_content (text : string) : string :=
  let cleaned_text := Re.sub Re.no_flags pattern text in
  if Text.contains "<think>" cleaned_text || Text.contains "</think>" cleaned_text
  then Re.sub Re.dotall pattern_dot cleaned_text
  else cleaned_text.

(** The primary pass on its own, and the test in front of the second
    pass, as the facts below name them. *)
Definition primary (text : string) : string := Re.sub Re.no_flags pattern text.

Definition tags_remain (s : string) : bool :=
  Text.contains "<think>" s || Text.contains "</think>" s.

(** ** The clock and [create_markdown] *)

Inductive month : Type :=
| January | February | March | April | May | June
| July | August | September | October | November | December.

(** What [datetime.now()] returns. *)
Record datetime : Type := {
  year : nat; month_of : month; day : nat;
  hour : nat; minute : nat; second : nat
}.

Definition month_name (m : month) : string :=
  match m with
  | January => "January" | February => "February" | March => "March"
  | April => "April" | May => "May" | June => "June"
  | July => "July" | August => "August" | September => "September"
  | October => "October" | November => "November" | December => "December"
  end.

Definition month_number (m : month) : nat :=
  match m with
  | January => 1 | February => 2 | March => 3 | April => 4 | May => 5 | June => 6
  | July => 7 | August => 8 | September => 9 | October => 10 | November => 11
  | December => 12
  end.

(** Two digits, as [%d], [%m], [%H], [%M] and [%S] print. *)
Definition two_digits (n : nat) : string :=
  if (n <? 10)%nat then "0" ++ Text.of_nat n else Text.of_nat n.

(** [strftime('%B %d, %Y')] in the C locale, for a year of four digits. *)
Definition strftime_B_d_Y (t : datetime) : string :=
  month_name (month_of t) ++ " " ++ two_digits (day t) ++ ", " ++ Text.of_nat (year t).

(** [strftime('%Y%m%d_%H%M%S')] *)
Definition strftime_stamp (t : datetime) : string :=
  Text.of_nat (year t) ++ two_digits (month_number (month_of t)) ++ two_digits (day t)
    ++ "_" ++ two_digits (hour t) ++ two_digits (minute t) ++ two_digits (second t).

(** The two lines [create_markdown] writes above the content. *)
Definition markdown_header (now : datetime) : string :=
  ("# AI & Data Analytics Newsletter" ++ Text.nl ++ Text.nl)
    ++ ("**Generated on " ++ strftime_B_d_Y now ++ "**" ++ Text.nl ++ Text.nl).

(** [create_markdown]; the clock it reads is the argument [now]. *)
Definition create_markdown (now : datetime) (content : string) : string :=
  let cleaned_content := remove_think_content content in
  let markdown_content := "# AI & Data Analytics Newsletter" ++ Text.nl ++ Text.nl in
  let markdown_content :=
    markdown_content ++ ("**Generated on " ++ strftime_B_d_Y now ++ "**" ++ Text.nl ++ Text.nl) in
  let markdown_content := markdown_content ++ cleaned_content in
  markdown_content.

(** ** News articles and [get_top_news_orgs] *)

(** The fields of an article record that the program reads;
    [source_name] is [article['source']['name']]. *)
Record Article : Type := {
  title : string;
  source_name : string;
  publishedAt : string;
  description : string;
  url : string
}.

(** [collections.Counter]: a dict from element to count, which keeps its
    keys in the order they were first inserted. *)
Module Counter.

Definition t : Type := list (string * nat).

(** [c[k] += 1] *)
Fixpoint incr (k : string) (c : t) : t :=
  match c with
  | [] => [(k, 1)]
  | (k', n) :: c' =>
      if String.eqb k k' then (k', S n) :: c' else (k', n) :: incr k c'
  end.

(** [c[k]], which is 0 for a key that is not there. *)
Fixpoint get (k : string) (c : t) : nat :=
  match c with
  | [] => 0
  | (k', n) :: c' => if String.eqb k k' then n else get k c'
  end.

(** [Counter(xs)] counts the elements from left to right. *)
Definition of_list (xs : list string) : t :=
  fold_left (fun c k => incr k c) xs [].

(** One step of a stable sort by descending count: [x], which stood in
    front of everything in [l], goes behind the larger counts only. *)
Fixpoint insert (x : string * nat) (l : t) : t :=
  match l with
  | [] => [x]
  | y :: l' => if (snd x <? snd y)%nat then y :: insert x l' else x :: y :: l'
  end.

(** [sorted(c.items(), key=itemgetter(1), reverse=True)] *)
Definition sorted_desc (c : t) : t := fold_right insert [] c.

(** [c.most_common(n)], which is [heapq.nlargest(n, c.items(), key=itemgetter(1))]:
    the first [n] items of the stable descending sort. *)
Definition most_common (n : nat) (c : t) : t := firstn n (sorted_desc c).

End Counter.

Definition get_top_news_orgs (articles : list Article) : list (string * nat) :=
  let sources := map source_name articles in
  let source_count := Counter.of_list sources in
  let top_sources := Counter.most_common 3 source_count in
  top_sources.

(** ** The world of the app *)

(** What a call that may raise comes back with; an exception is kept as
    the text [str(e)] gives. *)
Inductive outcome (A : Type) : Type :=
| Returned (a : A)
| Raised (msg : string).
Arguments Returned {A} a.
Arguments Raised {A} msg.

(** The language model behind [chain.run]: given the prompts sent so far
    and the next prompt, it answers or raises. *)
Definition Llm : Type := list string -> string -> outcome string.

(** The answer of the news server, as far as the program looks at it:
    [http_error] is the message of the [HTTPError] that [raise_for_status]
    raises, if any, and [articles_field] is the ['articles'] entry of the
    JSON body, if present.  The body is taken to be a JSON object whose
    articles have the fields that [main] reads. *)
Record Response : Type := {
  http_error : option string;
  articles_field : option (list Article)
}.

(** The network behind [requests.get]: given the URLs fetched so far and
    the next URL, a response or a [RequestException]. *)
Definition Http : Type := list string -> string -> outcome Response.

(** What Streamlit has been told to show. *)
Inductive widget : Type :=
| st_error (msg : string)
| st_info (msg : string)
| st_markdown (body : string)
| st_download_button (label data file_name mime : string).

Record World : Type := {
  newsletter_content : string;   (* st.session_state.newsletter_content *)
  screen : list widget;          (* shown so far, oldest first *)
  prompts : list string;         (* sent to the model so far *)
  requests : list string         (* URLs fetched so far *)
}.

(** [st.session_state] at the start of a session. *)
Definition initial_world : World :=
  {| newsletter_content := ""; screen := []; prompts := []; requests := [] |}.

(** Computations of the app: state passing over the world. *)
Definition App (A : Type) : Type := World -> A * World.

Definition ret {A : Type} (a : A) : App A := fun w => (a, w).

Definition bind {A B : Type} (m : App A) (k : A -> App B) : App B :=
  fun w => let (a, w') := m w in k a w'.

Notation "'let*' x ':=' m 'in' k" := (bind m (fun x => k))
  (at level 10, x name, m at level 100, k at level 200).
Notation "m ';;' k" := (bind m (fun _ => k))
  (at level 100, k at level 200, right associativity).

Definition eval {A : Type} (m : App A) (w : World) : A := fst (m w).
Definition exec {A : Type} (m : App A) (w : World) : World := snd (m w).

(** The world after one more widget, content, prompt or request. *)
Definition shown (x : widget) (w : World) : World :=
  {| newsletter_content := newsletter_content w;
     screen := (screen w ++ [x])%list;
     prompts := prompts w;
     requests := requests w |}.

Definition stored (s : string) (w : World) : World :=
  {| newsletter_content := s;
     screen := screen w;
     prompts := prompts w;
     requests := requests w |}.

Definition sent (prompt : string) (w : World) : World :=
  {| newsletter_content := newsletter_content w;
     screen := screen w;
     prompts := (prompts w ++ [prompt])%list;
     requests := requests w |}.

Definition fetched (u : string) (w : World) : World :=
  {| newsletter_content := newsletter_content w;
     screen := screen w;
     prompts := prompts w;
     requests := (requests w ++ [u])%list |}.

(** A computation that fetches nothing. *)
Definition keeps_requests {A : Type} (m : App A) : Prop :=
  forall w, requests (exec m w) = requests w.

Definition show (x : widget) : App unit := fun w => (tt, shown x w).

Definition get_newsletter_content : App string :=
  fun w => (newsletter_content w, w).

Definition set_newsletter_content (s : string) : App unit :=
  fun w => (tt, stored s w).

(** [chain.run(...)] on the filled template. *)
Definition chain_run (llm : Llm) (prompt : string) : App (outcome string) :=
  fun w => (llm (prompts w) prompt, sent prompt w).

(** [requests.get(url)] *)
Definition requests_get (http : Http) (u : string) : App (outcome Response) :=
  fun w => (http (requests w) u, fetched u w).

Fixpoint for_each {A : Type} (f : A -> App unit) (l : list A) : App unit :=
  match l with
  | [] => ret tt
  | x :: l' => f x ;; for_each f l'
  end.

(** ** The three model calls *)

Definition generate_newsletter (user_input : string) (llm : Llm) : App string :=
  let* r := chain_run llm (Template.NEWSLETTER user_input) in
  match r with
  | Returned result => ret result
  | Raised e => show (st_error ("Error generating newsletter: " ++ e)) ;; ret ""
  end.

Definition refine_newsletter (current_content refinement_instructions : string)
    (llm : Llm) : App string :=
  let* r := chain_run llm (Template.REFINEMENT current_content refinement_instructions) in
  match r with
  | Returned result => ret result
  | Raised e => show (st_error ("Error refining newsletter: " ++ e)) ;; ret current_content
  end.

Definition enhance_newsletter (current_content : string) (llm : Llm) : App string :=
  let* r := chain_run llm (Template.ENTERTAINMENT current_content) in
  match r with
  | Returned result => ret result
  | Raised e => show (st_error ("Error enhancing newsletter: " ++ e)) ;; ret current_content
  end.

(** ** [fetch_news_articles] *)

(** An f-string prints [None] for a key that [os.getenv] did not find. *)
Definition format_api_key (api_key : option string) : string :=
  match api_key with
  | Some k => k
  | None => "None"
  end.

Definition news_url (query : string) (api_key : option string) : string :=
  "https://newsapi.org/v2/everything?q=" ++ query
    ++ "&sortBy=publishedAt&pageSize=5&apiKey=" ++ format_api_key api_key.

Definition fetch_news_articles (query : string) (api_key : option string)
    (http : Http) : App (list Article) :=
  let url := news_url query api_key in
  let* r := requests_get http url in
  match r with
  | Returned response =>
      match http_error response with
      | None =>
          let articles :=
            match articles_field response with Some a => a | None => [] end in
          ret articles
      | Some e => show (st_error ("Error fetching news articles: " ++ e)) ;; ret []
      end
  | Raised e => show (st_error ("Error fetching news articles: " ++ e)) ;; ret []
  end.

(** ** [main]: one run of the script *)

(** The button pressed in this run, if any. *)
Inductive button : Type :=
| NoButton
| SearchNews
| GenerateNewsletter
| ExportToMarkdown
| RefineContent.

(** What the run reads from outside: the environment variable, the model,
    the network, the clock and the widgets' values. *)
Record Run : Type := {
  NEWS_API_KEY : option string;
  llm_of : Llm;
  http_of : Http;
  now_of : datetime;
  news_query : string;
  user_input : string;
  refinement_instructions : string;
  pressed : button
}.

Definition show_article (article : Article) : App unit :=
  show (st_markdown ("**" ++ title article ++ "**")) ;;
  show (st_markdown ("*" ++ source_name article ++ " - " ++ publishedAt article ++ "*")) ;;
  show (st_markdown (description article)) ;;
  show (st_markdown ("[Read more](" ++ url article ++ ")")) ;;
  show (st_markdown "---").

Definition show_org (entry : string * nat) : App unit :=
  let (org, count) := entry in
  show (st_markdown ("- **" ++ org ++ "**: " ++ Text.of_nat count ++ " articles")).

(** [if st.button("Search News"):] *)
Definition search_news (r : Run) : App unit :=
  let* articles := fetch_news_articles (news_query r) (NEWS_API_KEY r) (http_of r) in
  match articles with
  | _ :: _ =>
      show (st_markdown "#### Top News Organizations") ;;
      let top_orgs := get_top_news_orgs articles in
      for_each show_org top_orgs ;;
      show (st_markdown "#### Articles") ;;
      for_each show_article articles
  | [] => show (st_info "No articles found for the given topic.")
  end.

(** [if st.button("Generate Newsletter"):] *)
Definition generate_and_enhance (r : Run) : App unit :=
  let* initial_content := generate_newsletter (user_input r) (llm_of r) in
  let* enhanced := enhance_newsletter initial_content (llm_of r) in
  set_newsletter_content enhanced.

(** [if st.button("Export to Markdown"):] *)
Definition export_to_markdown (r : Run) : App unit :=
  let* content := get_newsletter_content in
  let markdown_data := create_markdown (now_of r) content in
  let file_name := "newsletter_" ++ strftime_stamp (now_of r) ++ ".md" in
  show (st_download_button "Download Markdown" markdown_data file_name "text/markdown").

(** [if st.button("Refine Content"):] *)
Definition refine_content (r : Run) : App unit :=
  let* content := get_newsletter_content in
  let* refined := refine_newsletter content (refinement_instructions r) (llm_of r) in
  set_newsletter_content refined.

Definition when (b : bool) (m : App unit) : App unit :=
  if b then m else ret tt.

Definition is_pressed (r : Run) (b : button) : bool :=
  match pressed r, b with
  | SearchNews, SearchNews
  | GenerateNewsletter, GenerateNewsletter
  | ExportToMarkdown, ExportToMarkdown
  | RefineContent, RefineContent => true
  | _, _ => false
  end.

(** [# Display and edit newsletter]: the part of [main] below the two
    upper buttons. *)
Definition display_and_edit (r : Run) : App unit :=
  let* content := get_newsletter_content in
  match content with
  | EmptyString => ret tt
  | String _ _ =>
      show (st_markdown "### Generated Newsletter") ;;
      show (st_markdown content) ;;
      when (is_pressed r ExportToMarkdown) (export_to_markdown r) ;;
      show (st_markdown "### Refine Newsletter") ;;
      when (is_pressed r RefineContent) (refine_content r)
  end.

(** One run of [main].  Widgets that only show fixed text or read input
    (title, slider, text fields) leave no trace in the world. *)
Definition main (r : Run) : App unit :=
  when (is_pressed r SearchNews) (search_news r) ;;
  when (is_pressed r GenerateNewsletter) (generate_and_enhance r) ;;
  display_and_edit r.

(** ** Sample inputs *)

Module Examples.

(** A network that cannot be reached. *)
Definition offline : Http := fun _ _ => Raised "connection refused".

Definition some_day : datetime :=
  {| year := 2025; month_of := March; day := 7; hour := 9; minute := 5; second := 30 |}.

(** A model that wraps its reasoning in think tags, as the templates ask. *)
Definition thinking_model : Llm :=
  fun _ _ => Returned "<think>plan</think>Headline".

(** A model that answers the first call and is gone at the second. *)
Definition model_lost_after_draft : Llm :=
  fun sent_so_far _ =>
    match sent_so_far with
    | [] => Returned "Headline"
    | _ :: _ => Raised "connection refused"
    end.

(** A model that cannot be reached. *)
Definition model_down : Llm := fun _ _ => Raised "connection refused".

(** A run with no API key in the environment, in which [b] is pressed. *)
Definition press (b : button) (llm : Llm) : Run :=
  {| NEWS_API_KEY := None;
     llm_of := llm;
     http_of := offline;
     now_of := some_day;
     news_query := "AI and Data Analytics";
     user_input := "quantum computing trends";
     refinement_instructions := "Make the introduction more concise";
     pressed := b |}.

(** A session that holds a draft already. *)
Definition drafted : World :=
  {| newsletter_content := "Headline";
     screen := [];
     prompts := [];
     requests := [] |}.

(** Five articles from the sources [A, A, B, C, A]. *)
Definition article_from (source : string) : Article :=
  {| title := "Title"; source_name := source; publishedAt := "2025-03-07T09:05:30Z";
     description := "Description"; url := "https://example.org/article" |}.

Definition five_articles : list Article :=
  map article_from ["A"; "A"; "B"; "C"; "A"]%list.

(** Think tags whose removal brings new tags about, two levels deep, and
    one level deep with a second end tag behind. *)
Definition spliced_twice : string :=
  "<thi<thi<think>x</think>nk>y</think>nk>z</think>".

Definition spliced_once : string :=
  "<thi<think>x</think>nk>a</think>b</think>".

Definition nested : string := "<think>a<think>b</think>c</think>".

End Examples.

(** ** Notions the specification speaks of *)

(** An occurrence of the marker pair: a start marker and, somewhere behind
    it, an end marker. *)
Definition marker_pair_in (s : string) : Prop :=
  exists a m b : string, s = a ++ START ++ m ++ END_ ++ b.

Module Spec.

(** The text in front of the first [m] in [s] and the text behind it. *)
Fixpoint split_first (m s : string) : option (string * string) :=
  match Text.strip_prefix m s with
  | Some r => Some (EmptyString, r)
  | None =>
      match s with
      | EmptyString => None
      | String a s' =>
          match split_first m s' with
          | Some (p, r) => Some (String a p, r)
          | None => None
          end
      end
  end.

(** The text in front of the last [m] in [s] and the text behind it. *)
Fixpoint split_last (m s : string) : option (string * string) :=
  match s with
  | EmptyString =>
      match Text.strip_prefix m EmptyString with
      | Some r => Some (EmptyString, r)
      | None => None
      end
  | String a s' =>
      match split_last m s' with
      | Some (p, r) => Some (String a p, r)
      | None =>
          match Text.strip_prefix m s with
          | Some r => Some (EmptyString, r)
          | None => None
          end
      end
  end.

(** The fallback pass in the specification's words: the first start
    marker and the last end marker delimit one span, which is removed
    with the markers. *)
Definition greedy_pass (s : string) : string :=
  match split_first START s with
  | Some (p, t) =>
      match split_last END_ t with
      | Some (_, r) => p ++ r
      | None => s
      end
  | None => s
  end.

(** Where [k] is first met in [l] (the length of [l] if nowhere). *)
Fixpoint first_index (k : string) (l : list string) : nat :=
  match l with
  | [] => 0
  | x :: l' => if String.eqb k x then 0 else S (first_index k l')
  end.

(** [e1] ranks before [e2]: a larger count, or the same count and a
    source met earlier in [sources]. *)
Definition ranks_before (sources : list string) (e1 e2 : string * nat) : Prop :=
  snd e2 < snd e1 \/
  (snd e1 = snd e2 /\ first_index (fst e1) sources < first_index (fst e2) sources).

(** [e1] holds a source met before the source of [e2]. *)
Definition met_before (sources : list string) (e1 e2 : string * nat) : Prop :=
  first_index (fst e1) sources < first_index (fst e2) sources.

(** A text with think spans: [p0 <think>m1</think> p1 <think>m2</think> p2 ...],
    given as [p0] and the pairs [(m1, p1), (m2, p2), ...]; and the same text
    with the spans taken out. *)
Fixpoint with_spans (p0 : string) (spans : list (string * string)) : string :=
  match spans with
  | [] => p0
  | (m, p) :: spans' => p0 ++ START ++ m ++ END_ ++ with_spans p spans'
  end.

Fixpoint without_spans (p0 : string) (spans : list (string * string)) : string :=
  match spans with
  | [] => p0
  | (_, p) :: spans' => p0 ++ without_spans p spans'
  end.

End Spec.

(** ** The outcomes of the two calls behind the Generate button *)

(** What [generate_newsletter] hands on: the model's text, or the empty
    text when the call raised. *)
Definition initial_content_of (r : Run) (w : World) : string :=
  match llm_of r (prompts w) (Template.NEWSLETTER (user_input r)) with
  | Returned x => x
  | Raised _ => EmptyString
  end.

(** The outcome of the call that [enhance_newsletter] then makes. *)
Definition enhancement_of (r : Run) (w : World) : outcome string :=
  llm_of r (prompts w ++ [Template.NEWSLETTER (user_input r)])%list
    (Template.ENTERTAINMENT (initial_content_of r w)).

(** ** Further notions *)

(** [s] is [t] with some characters left out. *)
Inductive subseq : string -> string -> Prop :=
| subseq_nil : subseq EmptyString EmptyString
| subseq_keep (c : ascii) (s t : string) : subseq s t -> subseq (String c s) (String c t)
| subseq_drop (c : ascii) (s t : string) : subseq s t -> subseq s (String c t).


(** What [show_org] and [show_article] put on the screen. *)
Definition org_widget (entry : string * nat) : widget :=
  st_markdown ("- **" ++ fst entry ++ "**: " ++ Text.of_nat (snd entry) ++ " articles").

Definition article_widgets (article : Article) : list widget :=
  [ st_markdown ("**" ++ title article ++ "**");
    st_markdown ("*" ++ source_name article ++ " - " ++ publishedAt article ++ "*");
    st_markdown (description article);
    st_markdown ("[Read more](" ++ url article ++ ")");
    st_markdown "---" ]%list.

(** [sum(c.values())] *)
Definition total_count (c : Counter.t) : nat :=
  fold_right (fun e acc => snd e + acc) 0 c.

(** What the part of [main] below the upper buttons shows of a draft
    before it comes to the lower buttons. *)
Definition draft_widgets (content : string) : list widget :=
  [ st_markdown "### Generated Newsletter"; st_markdown content ]%list.


(** The world after a list of widgets, oldest first. *)
Definition shown_all (l : list widget) (w : World) : World :=
  {| newsletter_content := newsletter_content w;
     screen := (screen w ++ l)%list;
     prompts := prompts w;
     requests := requests w |}.

Module MoreExamples.

(** A news server that answers with five articles. *)
Definition newsroom : Http :=
  fun _ _ => Returned {| http_error := None;
                         articles_field := Some Examples.five_articles |}.

(** A run with an API key and a news server, in which [b] is pressed. *)
Definition press_online (b : button) (llm : Llm) : Run :=
  {| NEWS_API_KEY := Some "k3y";
     llm_of := llm;
     http_of := newsroom;
     now_of := Examples.some_day;
     news_query := "AI";
     user_input := "quantum computing trends";
     refinement_instructions := "";
     pressed := b |}.

End MoreExamples.

(** * Part II: facts about the program *)

(** ** Text *)

Module TextFacts.
Import Text.

Lemma append_assoc (a b c : string) : (a ++ b) ++ c = a ++ (b ++ c).
Proof. induction a as [|x a IH]; simpl; [reflexivity | now rewrite IH]. Qed.

Lemma length_append (a b : string) :
  String.length (a ++ b) = String.length a + String.length b.
Proof. induction a as [|x a IH]; simpl; [reflexivity | now rewrite IH]. Qed.

Lemma strip_prefix_app (m r : string) : strip_prefix m (m ++ r) = Some r.
Proof.
  induction m as [|a m IH]; simpl; [reflexivity|].
  now rewrite Ascii.eqb_refl.
Qed.

Lemma strip_prefix_Some (m s r : string) :
  strip_prefix m s = Some r -> s = m ++ r.
Proof.
  revert s; induction m as [|a m IH]; intros s; simpl.
  - now intros [= ->].
  - destruct s as [|b s]; [discriminate|].
    destruct (Ascii.eqb_spec a b) as [->|]; [|discriminate].
    intros H; now rewrite (IH _ H).
Qed.

Lemma starts_with_app (m p u : string) :
  starts_with m p = true -> starts_with m (p ++ u) = true.
Proof.
  unfold starts_with.
  destruct (strip_prefix m p) as [r|] eqn:E; [|discriminate].
  intros _. apply strip_prefix_Some in E; subst p.
  now rewrite append_assoc, strip_prefix_app.
Qed.

(** A marker whose first character occurs nowhere else in it cannot start
    inside [p] and run over into a copy of itself placed behind [p]. *)
Lemma starts_with_fresh (m : string) (c : ascii) (p u : string) :
  fresh c m = true ->
  starts_with m (p ++ String c u) = true -> starts_with m p = true.
Proof.
  unfold starts_with.
  revert p; induction m as [|d m IH]; intros p Hf; [reflexivity|].
  simpl in Hf; apply andb_true_iff in Hf as [Hd Hf].
  destruct p as [|e p]; simpl.
  - rewrite Ascii.eqb_sym. now destruct (Ascii.eqb c d).
  - destruct (Ascii.eqb d e); [now apply IH | discriminate].
Qed.

Lemma no_straddle (c : ascii) (m : string) (a : ascii) (p u : string) :
  fresh c m = true ->
  starts_with (String c m) (String a p ++ String c m ++ u) = true ->
  starts_with (String c m) (String a p) = true.
Proof.
  intros Hf. unfold starts_with; simpl.
  destruct (Ascii.eqb c a); [|discriminate].
  apply (starts_with_fresh m c p (m ++ u) Hf).
Qed.

Lemma contains_cons (m : string) (a : ascii) (s : string) :
  contains m (String a s) = false ->
  starts_with m (String a s) = false /\ contains m s = false.
Proof. simpl. now intros H%orb_false_iff. Qed.

Lemma contains_starts_with (m s : string) :
  contains m s = false -> starts_with m s = false.
Proof. destruct s; simpl; now intros H%orb_false_iff. Qed.

Lemma contains_app_r (m p s : string) :
  contains m (p ++ s) = false -> contains m s = false.
Proof.
  induction p as [|a p IH]; simpl; [trivial|].
  intros H%orb_false_iff. now apply IH.
Qed.

Lemma contains_app_l (m p s : string) :
  contains m (p ++ s) = false -> contains m p = false.
Proof.
  induction p as [|a p IH]; simpl.
  - intros H. apply contains_starts_with in H.
    destruct (starts_with m "") eqn:E; [|reflexivity].
    pose proof (starts_with_app m "" s E) as E'. simpl in E'. congruence.
  - intros [H1 H2]%orb_false_iff. rewrite (IH H2), orb_false_r.
    destruct (starts_with m (String a p)) eqn:E; [|reflexivity].
    pose proof (starts_with_app m (String a p) s E) as E'. simpl in E'. congruence.
Qed.

(** The first occurrence of a marker splits the text around it. *)
Lemma contains_split (c : ascii) (m x : string) :
  contains (String c m) x = true ->
  exists p t, x = p ++ String c m ++ t /\ contains (String c m) p = false.
Proof.
  induction x as [|a x IH].
  - discriminate.
  - cbn [contains]. intros H.
    destruct (starts_with (String c m) (String a x)) eqn:Hw.
    + exists EmptyString. unfold starts_with in Hw.
      destruct (strip_prefix (String c m) (String a x)) as [t|] eqn:E; [|discriminate].
      exists t. split; [exact (strip_prefix_Some _ _ _ E) | reflexivity].
    + destruct (IH H) as (p & t & -> & Hp).
      exists (String a p), t. split; [reflexivity|].
      cbn [contains]. rewrite Hp, orb_false_r.
      destruct (starts_with (String c m) (String a p)) eqn:Hw'; [|reflexivity].
      pose proof (starts_with_app _ _ (String c m ++ t) Hw') as Hc.
      change (String a p ++ String c m ++ t) with (String a (p ++ String c m ++ t)) in Hc.
      congruence.
Qed.

End TextFacts.

(** ** Matching and substitution *)

Module ReFacts.
Import Re.

(** *** Unfolding equations *)

Lemma sub_cons (fl : flags) (p : pattern) (c : ascii) (s' : string) :
  sub fl p (String c s') =
  match match_here fl p (String c s') with
  | Some r =>
      if (String.length r <? String.length (String c s'))%nat
      then sub fl p r
      else String c (sub fl p s')
  | None => String c (sub fl p s')
  end.
Proof.
  simp sub.
  destruct (match_here fl p (String c s')) as [r|]; [|reflexivity].
  unfold sub_unfold_clause_2.
  destruct (le_lt_dec (String.length (String c s')) (String.length r));
    unfold sub_unfold_clause_2_clause_1;
    destruct (Nat.ltb_spec (String.length r) (String.length (String c s')));
    try reflexivity; lia.
Qed.

Lemma match_here_star (fl : flags) (cs : cset) (p : pattern) (s : string) :
  match_here fl (LazyStar cs :: p) s =
  match match_here fl p s with
  | Some r => Some r
  | None =>
      match s with
      | EmptyString => None
      | String c s' =>
          if cset_match fl cs c then match_here fl (LazyStar cs :: p) s' else None
      end
  end.
Proof. destruct s; reflexivity. Qed.

Lemma match_here_lit (fl : flags) (m : string) (p : pattern) (s : string) :
  match_here fl (Lit m :: p) s =
  match Text.strip_prefix m s with
  | Some s' => match_here fl p s'
  | None => None
  end.
Proof. reflexivity. Qed.

(** A lazy star looks at its character set only through [cset_match]. *)
Lemma match_here_star_ext (fl fl' : flags) (cs cs' : cset) (p : pattern) :
  (forall c, cset_match fl cs c = cset_match fl' cs' c) ->
  (forall s, match_here fl p s = match_here fl' p s) ->
  forall s, match_here fl (LazyStar cs :: p) s = match_here fl' (LazyStar cs' :: p) s.
Proof.
  intros Hc Hp s; induction s as [|a s IH];
    rewrite (match_here_star fl), (match_here_star fl'), Hp.
  - reflexivity.
  - destruct (match_here fl' p (String a s)); [reflexivity|].
    rewrite Hc, IH. reflexivity.
Qed.

(** Induction on the length of the text, the measure [sub] recurses on. *)
Lemma length_ind (P : string -> Prop) :
  (forall s, (forall t, String.length t < String.length s -> P t) -> P s) ->
  forall s, P s.
Proof.
  intros step s.
  remember (String.length s) as n eqn:E.
  revert s E; induction n as [n IH] using lt_wf_ind; intros s ->.
  apply step; intros t Ht. now apply (IH (String.length t)).
Qed.

(** Two patterns that match alike substitute alike. *)
Lemma sub_ext (fl fl' : flags) (p p' : pattern) :
  (forall s, match_here fl p s = match_here fl' p' s) ->
  forall s, sub fl p s = sub fl' p' s.
Proof.
  intros Hm s; induction s as [s IH] using length_ind.
  destruct s as [|c s']; [reflexivity|].
  rewrite !sub_cons, <- Hm.
  destruct (match_here fl p (String c s')) as [r|].
  - destruct (Nat.ltb_spec (String.length r) (String.length (String c s'))).
    + now apply IH.
    + f_equal; apply IH; simpl; lia.
  - f_equal; apply IH; simpl; lia.
Qed.

(** The result is never longer than the text. *)
Lemma sub_length (fl : flags) (p : pattern) (s : string) :
  String.length (sub fl p s) <= String.length s.
Proof.
  induction s as [s IH] using length_ind.
  destruct s as [|c s']; [reflexivity|].
  rewrite sub_cons.
  assert (Hk : String.length (String c (sub fl p s')) <= String.length (String c s')).
  { simpl. apply le_n_S, IH. simpl; lia. }
  destruct (match_here fl p (String c s')) as [r|]; [|exact Hk].
  destruct (Nat.ltb_spec (String.length r) (String.length (String c s'))) as [Hlt|];
    [|exact Hk].
  specialize (IH r Hlt). lia.
Qed.

(** *** Patterns of the shape [open X*? close]

    [open] and [close] are markers whose first character occurs nowhere
    else in them, and [X] is a character set that takes every character. *)
Section Delimited.

Variables (fl : flags) (cs : cset).
Hypothesis cs_any : forall c, cset_match fl cs c = true.
Variables (c1 : ascii) (m1 : string) (c2 : ascii) (m2 : string).
Hypothesis fresh1 : Text.fresh c1 m1 = true.
Hypothesis fresh2 : Text.fresh c2 m2 = true.

Local Abbreviation opening := (String c1 m1).
Local Abbreviation closing := (String c2 m2).
Local Abbreviation P := [Lit opening; LazyStar cs; Lit closing].

Lemma star_found (m r : string) :
  Text.contains closing m = false ->
  match_here fl [LazyStar cs; Lit closing] (m ++ closing ++ r) = Some r.
Proof.
  induction m as [|a m IH]; intros Hm; rewrite match_here_star, match_here_lit.
  - change ("" ++ closing ++ r) with (closing ++ r).
    now rewrite TextFacts.strip_prefix_app.
  - apply TextFacts.contains_cons in Hm as [Hs Hm].
    destruct (Text.strip_prefix closing (String a m ++ closing ++ r)) as [x|] eqn:E.
    + assert (Hw : Text.starts_with closing (String a m ++ closing ++ r) = true)
        by (unfold Text.starts_with; now rewrite E).
      apply (TextFacts.no_straddle c2 m2 a m r fresh2) in Hw. congruence.
    + simpl. rewrite cs_any. now apply IH.
Qed.

Lemma star_none (t : string) :
  Text.contains closing t = false ->
  match_here fl [LazyStar cs; Lit closing] t = None.
Proof.
  induction t as [|a t IH]; intros Ht; rewrite match_here_star, match_here_lit.
  - reflexivity.
  - apply TextFacts.contains_cons in Ht as [Hs Ht].
    unfold Text.starts_with in Hs.
    destruct (Text.strip_prefix closing (String a t)); [discriminate|].
    rewrite cs_any. now apply IH.
Qed.

Lemma match_found (m r : string) :
  Text.contains closing m = false ->
  match_here fl P (opening ++ m ++ closing ++ r) = Some r.
Proof.
  intros Hm. rewrite match_here_lit, TextFacts.strip_prefix_app.
  now apply star_found.
Qed.

Lemma match_none_open (s : string) :
  Text.starts_with opening s = false -> match_here fl P s = None.
Proof.
  unfold Text.starts_with. rewrite match_here_lit.
  now destruct (Text.strip_prefix opening s).
Qed.

Lemma match_none_close (s : string) :
  Text.contains closing s = false -> match_here fl P s = None.
Proof.
  intros Hs. rewrite match_here_lit.
  destruct (Text.strip_prefix opening s) as [t|] eqn:E; [|reflexivity].
  apply TextFacts.strip_prefix_Some in E; subst s.
  apply star_none. now apply TextFacts.contains_app_r in Hs.
Qed.

Lemma sub_no_open (s : string) :
  Text.contains opening s = false -> sub fl P s = s.
Proof.
  induction s as [|a s IH]; intros Hs; [reflexivity|].
  rewrite sub_cons.
  apply TextFacts.contains_cons in Hs as [Hw Hs].
  now rewrite (match_none_open _ Hw), IH.
Qed.

Lemma sub_no_close (s : string) :
  Text.contains closing s = false -> sub fl P s = s.
Proof.
  induction s as [|a s IH]; intros Hs; [reflexivity|].
  rewrite sub_cons, (match_none_close _ Hs).
  apply TextFacts.contains_cons in Hs as [_ Hs].
  now rewrite IH.
Qed.

(** Text in front of the first opening marker is kept. *)
Lemma sub_skip (p t : string) :
  Text.contains opening p = false ->
  sub fl P (p ++ opening ++ t) = p ++ sub fl P (opening ++ t).
Proof.
  induction p as [|a p IH]; intros Hp; [reflexivity|].
  apply TextFacts.contains_cons in Hp as [Hw Hp].
  change ((String a p ++ opening ++ t)) with (String a (p ++ opening ++ t)).
  rewrite sub_cons, match_none_open.
  - now rewrite (IH Hp).
  - destruct (Text.starts_with opening (String a (p ++ opening ++ t))) eqn:E;
      [|reflexivity].
    apply (TextFacts.no_straddle c1 m1 a p t fresh1) in E. congruence.
Qed.

(** The first opening marker, the shortest text up to a closing marker
    and that marker are dropped; the scan goes on behind them. *)
Lemma sub_pair (p m r : string) :
  Text.contains opening p = false ->
  Text.contains closing m = false ->
  sub fl P (p ++ opening ++ m ++ closing ++ r) = p ++ sub fl P r.
Proof.
  intros Hp Hm. rewrite (sub_skip _ _ Hp). f_equal.
  change (opening ++ m ++ closing ++ r)
    with (String c1 (m1 ++ m ++ closing ++ r)).
  rewrite sub_cons.
  change (String c1 (m1 ++ m ++ closing ++ r))
    with (opening ++ m ++ closing ++ r).
  rewrite (match_found _ _ Hm).
  destruct (Nat.ltb_spec (String.length r)
              (String.length (opening ++ m ++ closing ++ r))) as [|Hge];
    [reflexivity|].
  rewrite !TextFacts.length_append in Hge. simpl in Hge. lia.
Qed.

(** An opening marker that no closing marker follows stays, as long as
    the opening marker itself cannot bring a closing one about. *)
Lemma sub_unclosed (p t : string) :
  (forall u, Text.contains closing u = false ->
             Text.contains closing (opening ++ u) = false) ->
  Text.contains opening p = false ->
  Text.contains closing t = false ->
  sub fl P (p ++ opening ++ t) = p ++ opening ++ t.
Proof.
  intros Hoc Hp Ht. rewrite (sub_skip _ _ Hp). f_equal.
  apply sub_no_close, Hoc, Ht.
Qed.

End Delimited.

End ReFacts.

(** ** The two passes of the filter *)

Lemma any_space_nonspace fl c : Re.cset_match fl (Re.Union Re.Space Re.NonSpace) c = true.
Proof. simpl. apply orb_negb_r. Qed.

Lemma any_dot_dotall c : Re.cset_match Re.dotall Re.Dot c = true.
Proof. reflexivity. Qed.

Lemma passes_agree s : Re.sub Re.dotall pattern_dot s = Re.sub Re.no_flags pattern s.
Proof.
  apply ReFacts.sub_ext; clear s; intros s.
  unfold pattern, pattern_dot. rewrite !ReFacts.match_here_lit.
  destruct (Text.strip_prefix "<think>" s) as [t|]; [|reflexivity].
  apply ReFacts.match_here_star_ext; [|reflexivity].
  intros c. now rewrite any_dot_dotall, any_space_nonspace.
Qed.

Lemma remove_think_content_unfold (x : string) :
  remove_think_content x =
  if tags_remain (primary x) then primary (primary x) else primary x.
Proof.
  unfold remove_think_content, tags_remain, primary; cbv zeta.
  now rewrite passes_agree.
Qed.

Lemma fresh_START : Text.fresh "<" "think>" = true.
Proof. reflexivity. Qed.

Lemma fresh_END : Text.fresh "<" "/think>" = true.
Proof. reflexivity. Qed.

Lemma END_not_in_START (u : string) :
  Text.contains END_ u = false -> Text.contains END_ (START ++ u) = false.
Proof. intros H. simpl. exact H. Qed.

Lemma primary_pair (p m r : string) :
  Text.contains START p = false ->
  Text.contains END_ m = false ->
  primary (p ++ START ++ m ++ END_ ++ r) = p ++ primary r.
Proof.
  apply (ReFacts.sub_pair Re.no_flags _ (any_space_nonspace _)
           "<" "think>" "<" "/think>" fresh_START fresh_END).
Qed.

Lemma primary_no_start (s : string) :
  Text.contains START s = false -> primary s = s.
Proof. apply (ReFacts.sub_no_open Re.no_flags _ "<" "think>" "<" "/think>"). Qed.

Lemma primary_no_end (s : string) :
  Text.contains END_ s = false -> primary s = s.
Proof.
  apply (ReFacts.sub_no_close Re.no_flags _ (any_space_nonspace _)
           "<" "think>" "<" "/think>").
Qed.

Lemma primary_unclosed (p t : string) :
  Text.contains START p = false ->
  Text.contains END_ t = false ->
  primary (p ++ START ++ t) = p ++ START ++ t.
Proof.
  apply (ReFacts.sub_unclosed Re.no_flags _ (any_space_nonspace _)
           "<" "think>" "<" "/think>" fresh_START p t END_not_in_START).
Qed.

Lemma primary_length (s : string) : String.length (primary s) <= String.length s.
Proof. apply ReFacts.sub_length. Qed.

(** With one kind of tag missing the second pass finds nothing. *)
Lemma second_pass_idle (c : string) :
  Text.contains START c && Text.contains END_ c = false -> primary c = c.
Proof.
  intros [H|H]%andb_false_iff; [now apply primary_no_start | now apply primary_no_end].
Qed.

Lemma remove_think_content_idle (x : string) :
  Text.contains START (primary x) && Text.contains END_ (primary x) = false ->
  remove_think_content x = primary x.
Proof.
  intros H. rewrite remove_think_content_unfold.
  destruct (tags_remain (primary x)); [now apply second_pass_idle | reflexivity].
Qed.

Lemma remove_think_content_no_tags (x : string) :
  Text.contains START x && Text.contains END_ x = false ->
  remove_think_content x = x.
Proof.
  intros H. pose proof (second_pass_idle x H) as E.
  rewrite remove_think_content_idle; rewrite E; auto.
Qed.

(** Every text has one of three shapes: no start tag; a first start tag
    that no end tag follows; a first start tag and the nearest end tag
    behind it. *)
Lemma text_shape (x : string) :
  Text.contains START x = false \/
  (exists p t, x = p ++ START ++ t /\
     Text.contains START p = false /\ Text.contains END_ t = false) \/
  (exists p m r, x = p ++ START ++ m ++ END_ ++ r /\
     Text.contains START p = false /\ Text.contains END_ m = false).
Proof.
  destruct (Text.contains START x) eqn:Hs; [right | now left].
  destruct (TextFacts.contains_split "<" "think>" x Hs) as (p & t & -> & Hp).
  destruct (Text.contains END_ t) eqn:He; [right | left; now exists p, t].
  destruct (TextFacts.contains_split "<" "/think>" t He) as (m & r & -> & Hm).
  now exists p, m, r.
Qed.

Lemma remove_think_content_unclosed (p t : string) :
  Text.contains START p = false ->
  Text.contains END_ t = false ->
  remove_think_content (p ++ START ++ t) = p ++ START ++ t.
Proof.
  intros Hp Ht. rewrite remove_think_content_unfold.
  rewrite !(primary_unclosed p t Hp Ht). now destruct (tags_remain _).
Qed.

(** A text that holds no marker pair is left as it is. *)
Lemma remove_think_content_fixed (y : string) :
  ~ marker_pair_in y -> remove_think_content y = y.
Proof.
  intros Hy. destruct (text_shape y) as [H|[(p & t & -> & Hp & Ht)|(p & m & r & -> & _)]].
  - apply remove_think_content_no_tags. now rewrite H.
  - now apply remove_think_content_unclosed.
  - exfalso; apply Hy. now exists p, m, r.
Qed.

(** So the filter changes nothing the second time whenever its first
    result holds no marker pair. *)
Lemma remove_think_content_twice (x : string) :
  ~ marker_pair_in (remove_think_content x) ->
  remove_think_content (remove_think_content x) = remove_think_content x.
Proof. apply remove_think_content_fixed. Qed.

(** Zero or more closed spans between pieces that bring no start tag
    about: the primary pass returns the pieces. *)
Lemma primary_spans (spans : list (string * string)) (p0 : string) :
  Forall (fun sp => Text.contains END_ (fst sp) = false) spans ->
  Text.contains START (Spec.without_spans p0 spans) = false ->
  primary (Spec.with_spans p0 spans) = Spec.without_spans p0 spans.
Proof.
  intros Hm; revert p0; induction Hm as [|[m p] spans Hm _ IH]; intros p0 Hclean;
    cbn [Spec.with_spans Spec.without_spans] in *.
  - now apply primary_no_start.
  - rewrite primary_pair.
    + f_equal. apply IH. now apply TextFacts.contains_app_r in Hclean.
    + now apply TextFacts.contains_app_l in Hclean.
    + exact Hm.
Qed.

(** ** [Counter] and the ranking *)

Module CounterFacts.
Import Counter Spec.
Local Open Scope list_scope.
Local Open Scope nat_scope.

(** *** Where a source is first met *)

Lemma first_index_app (k : string) (l l' : list string) :
  In k l -> first_index k (l ++ l') = first_index k l.
Proof.
  induction l as [|x l IH]; simpl; [tauto|].
  destruct (String.eqb_spec k x) as [->|Hne]; [reflexivity|].
  intros [->|H]; [congruence | now rewrite IH].
Qed.

Lemma first_index_lt (k : string) (l : list string) :
  In k l -> first_index k l < length l.
Proof.
  induction l as [|x l IH]; simpl; [tauto|].
  destruct (String.eqb_spec k x) as [->|Hne]; [lia|].
  intros [->|H]; [congruence | apply IH in H; lia].
Qed.

Lemma first_index_snoc (k : string) (l : list string) :
  ~ In k l -> first_index k (l ++ [k]) = length l.
Proof.
  induction l as [|x l IH]; simpl.
  - now rewrite String.eqb_refl.
  - intros H. destruct (String.eqb_spec k x) as [->|Hne]; [tauto|].
    rewrite IH; tauto.
Qed.

(** *** [incr] *)

Lemma incr_keys_old (k : string) (c : t) :
  In k (map fst c) -> map fst (incr k c) = map fst c.
Proof.
  induction c as [|[k' n] c IH]; simpl; [tauto|].
  destruct (String.eqb_spec k k') as [->|Hne]; [reflexivity|].
  intros [->|H]; [congruence | simpl; now rewrite IH].
Qed.

Lemma incr_new (k : string) (c : t) :
  ~ In k (map fst c) -> incr k c = c ++ [(k, 1)].
Proof.
  induction c as [|[k' n] c IH]; simpl; [reflexivity|].
  intros H. destruct (String.eqb_spec k k') as [->|Hne]; [tauto|].
  rewrite IH; tauto.
Qed.

Lemma get_incr (k k' : string) (c : t) :
  get k' (incr k c) = if String.eqb k' k then S (get k c) else get k' c.
Proof.
  induction c as [|[k0 n0] c IH]; simpl.
  - destruct (String.eqb_spec k' k); reflexivity.
  - destruct (String.eqb_spec k k0) as [->|Hne]; simpl.
    + destruct (String.eqb_spec k' k0); reflexivity.
    + destruct (String.eqb_spec k' k0) as [->|Hne'].
      * destruct (String.eqb_spec k0 k); [congruence | reflexivity].
      * exact IH.
Qed.

Lemma get_In (k : string) (n : nat) (c : t) :
  NoDup (map fst c) -> In (k, n) c -> get k c = n.
Proof.
  induction c as [|[k0 n0] c IH]; simpl; [tauto|].
  intros Hnd [[= -> ->]|H].
  - now rewrite String.eqb_refl.
  - inversion Hnd as [|? ? Hnotin Hnd']; subst.
    destruct (String.eqb_spec k k0) as [->|Hne]; [|now apply IH].
    exfalso; apply Hnotin. now apply (in_map fst) in H.
Qed.

Lemma incr_keys_In (k k' : string) (c : t) :
  In k' (map fst (incr k c)) <-> k' = k \/ In k' (map fst c).
Proof.
  destruct (in_dec string_dec k (map fst c)) as [Hin|Hnot].
  - rewrite (incr_keys_old _ _ Hin). split; [tauto|]. intros [->|H]; assumption.
  - rewrite (incr_new _ _ Hnot), map_app, in_app_iff. simpl. intuition congruence.
Qed.

(** *** [of_list] *)

Lemma of_list_snoc (l : list string) (x : string) :
  of_list (l ++ [x]) = incr x (of_list l).
Proof. unfold of_list. now rewrite fold_left_app. Qed.

Lemma get_of_list (l : list string) (k : string) :
  get k (of_list l) = count_occ string_dec l k.
Proof.
  induction l as [|x l IH] using rev_ind; [reflexivity|].
  rewrite of_list_snoc, get_incr, count_occ_app, IH. simpl.
  destruct (String.eqb_spec k x) as [->|Hne].
  - destruct (string_dec x x); [lia | congruence].
  - destruct (string_dec x k); [congruence | lia].
Qed.

Lemma of_list_keys (l : list string) (k : string) :
  In k (map fst (of_list l)) <-> In k l.
Proof.
  induction l as [|x l IH] using rev_ind; [reflexivity|].
  rewrite of_list_snoc, incr_keys_In, in_app_iff, IH. simpl. intuition congruence.
Qed.

Lemma of_list_NoDup (l : list string) : NoDup (map fst (of_list l)).
Proof.
  induction l as [|x l IH] using rev_ind; [constructor|].
  rewrite of_list_snoc.
  destruct (in_dec string_dec x (map fst (of_list l))) as [Hin|Hnot].
  - now rewrite (incr_keys_old _ _ Hin).
  - rewrite (incr_new _ _ Hnot), map_app. simpl.
    apply NoDup_app; repeat split; auto.
    + repeat constructor; simpl; tauto.
    + intros a Ha [<-|[]]. tauto.
Qed.

(** The entries of [Counter(l)] are the distinct elements of [l], each
    with the number of times it occurs. *)
Lemma of_list_In (l : list string) (k : string) (n : nat) :
  In (k, n) (of_list l) -> n = count_occ string_dec l k /\ In k l.
Proof.
  intros H. split.
  - rewrite <- get_of_list. symmetry. apply get_In; [apply of_list_NoDup | exact H].
  - apply of_list_keys. now apply (in_map fst) in H.
Qed.

(** *** Sorted lists *)

Lemma StronglySorted_weaken {A : Type} (R R' : A -> A -> Prop) (l : list A) :
  (forall a b, In a l -> In b l -> R a b -> R' a b) ->
  StronglySorted R l -> StronglySorted R' l.
Proof.
  induction l as [|x l IH]; intros Hw Hs; [constructor|].
  apply StronglySorted_inv in Hs as [Hs Hx].
  constructor.
  - apply IH; [|exact Hs]. intros a b Ha Hb. apply Hw; now right.
  - rewrite Forall_forall in Hx |- *. intros y Hy.
    apply Hw; [now left | now right | now apply Hx].
Qed.

Lemma StronglySorted_snoc {A : Type} (R : A -> A -> Prop) (l : list A) (x : A) :
  StronglySorted R l -> Forall (fun a => R a x) l -> StronglySorted R (l ++ [x]).
Proof.
  induction l as [|y l IH]; intros Hs Hx; simpl.
  - repeat constructor.
  - apply StronglySorted_inv in Hs as [Hs Hy].
    inversion Hx; subst. constructor; [now apply IH|].
    apply Forall_app; split; [exact Hy | now repeat constructor].
Qed.

Lemma StronglySorted_app_inv {A : Type} (R : A -> A -> Prop) (l1 l2 : list A) :
  StronglySorted R (l1 ++ l2) ->
  StronglySorted R l1 /\ forall a b, In a l1 -> In b l2 -> R a b.
Proof.
  induction l1 as [|x l1 IH]; simpl; intros Hs.
  - split; [constructor | intros a b []].
  - apply StronglySorted_inv in Hs as [Hs Hx].
    destruct (IH Hs) as [H1 H2].
    apply Forall_app in Hx as [Hx1 Hx2]. split.
    + now constructor.
    + intros a b [<-|Ha] Hb; [|now apply H2].
      rewrite Forall_forall in Hx2. now apply Hx2.
Qed.

Lemma StronglySorted_map {A B : Type} (f : A -> B) (R : B -> B -> Prop) (l : list A) :
  StronglySorted R (map f l) -> StronglySorted (fun a b => R (f a) (f b)) l.
Proof.
  induction l as [|x l IH]; simpl; intros Hs; [constructor|].
  apply StronglySorted_inv in Hs as [Hs Hx].
  constructor; [now apply IH|].
  rewrite Forall_forall in Hx |- *. intros y Hy. apply Hx. now apply in_map.
Qed.

(** *** The order of the keys *)

Lemma of_list_keys_order (l : list string) :
  StronglySorted (fun k1 k2 => first_index k1 l < first_index k2 l)
    (map fst (of_list l)).
Proof.
  induction l as [|x l IH] using rev_ind; [constructor|].
  rewrite of_list_snoc.
  assert (Hold : forall a b, In a (map fst (of_list l)) -> In b (map fst (of_list l)) ->
            first_index a l < first_index b l ->
            first_index a (l ++ [x]) < first_index b (l ++ [x])).
  { intros a b Ha Hb.
    apply (proj1 (of_list_keys _ _)) in Ha. apply (proj1 (of_list_keys _ _)) in Hb.
    rewrite (first_index_app a), (first_index_app b) by assumption. trivial. }
  destruct (in_dec string_dec x (map fst (of_list l))) as [Hin|Hnot].
  - rewrite (incr_keys_old _ _ Hin).
    now apply (StronglySorted_weaken _ _ _ Hold).
  - rewrite (incr_new _ _ Hnot), map_app. simpl.
    apply StronglySorted_snoc.
    + now apply (StronglySorted_weaken _ _ _ Hold).
    + rewrite Forall_forall. intros a Ha. apply (proj1 (of_list_keys _ _)) in Ha.
      rewrite first_index_app, first_index_snoc; auto.
      * now apply first_index_lt.
      * now rewrite <- of_list_keys.
Qed.

Lemma of_list_order (l : list string) : StronglySorted (met_before l) (of_list l).
Proof.
  apply (StronglySorted_map fst (fun k1 k2 => first_index k1 l < first_index k2 l)).
  apply of_list_keys_order.
Qed.

(** *** The stable descending sort *)

Lemma insert_perm (x : string * nat) (l : t) : Permutation (insert x l) (x :: l).
Proof.
  induction l as [|y l IH]; simpl; [reflexivity|].
  destruct (snd x <? snd y)%nat; [|reflexivity].
  rewrite IH. apply perm_swap.
Qed.

Lemma sorted_desc_perm (c : t) : Permutation (sorted_desc c) c.
Proof.
  induction c as [|x c IH]; simpl; [reflexivity|].
  rewrite insert_perm. now constructor.
Qed.

Section Ranking.

Variable sources : list string.

(** [x] was met before everything in the sorted [l]: it lands behind the
    larger counts and in front of the equal ones. *)
Lemma insert_sorted (x : string * nat) (l : t) :
  StronglySorted (ranks_before sources) l ->
  Forall (met_before sources x) l ->
  StronglySorted (ranks_before sources) (insert x l).
Proof.
  induction l as [|y l IH]; simpl; intros Hs Hx.
  - repeat constructor.
  - apply StronglySorted_inv in Hs as [Hs Hy].
    inversion Hx as [|? ? Hxy Hxl]; subst.
    destruct (Nat.ltb_spec (snd x) (snd y)) as [Hlt|Hge].
    + constructor; [now apply IH|].
      rewrite Forall_forall in Hy |- *. intros z Hz.
      apply (Permutation_in _ (insert_perm x l)) in Hz as [<-|Hz].
      * now left.
      * now apply Hy.
    + constructor; [now constructor|].
      assert (Hxy' : ranks_before sources x y).
      { unfold ranks_before, met_before in *. lia. }
      constructor; [exact Hxy'|].
      rewrite Forall_forall in Hy, Hxl |- *. intros z Hz.
      specialize (Hy z Hz). specialize (Hxl z Hz).
      unfold ranks_before, met_before in *. lia.
Qed.

Lemma sorted_desc_sorted (c : t) :
  StronglySorted (met_before sources) c ->
  StronglySorted (ranks_before sources) (sorted_desc c).
Proof.
  induction c as [|x c IH]; simpl; intros Hs; [constructor|].
  apply StronglySorted_inv in Hs as [Hs Hx].
  apply insert_sorted; [now apply IH|].
  rewrite Forall_forall in Hx |- *. intros y Hy. apply Hx.
  now apply (Permutation_in _ (sorted_desc_perm c)).
Qed.

End Ranking.

End CounterFacts.

(** ** The model calls, case by case *)

Lemma generate_newsletter_returned (user_input : string) (llm : Llm) (w : World) (x : string) :
  llm (prompts w) (Template.NEWSLETTER user_input) = Returned x ->
  generate_newsletter user_input llm w = (x, sent (Template.NEWSLETTER user_input) w).
Proof. intros H. unfold generate_newsletter, bind, chain_run. now rewrite H. Qed.

Lemma generate_newsletter_raised (user_input : string) (llm : Llm) (w : World) (e : string) :
  llm (prompts w) (Template.NEWSLETTER user_input) = Raised e ->
  generate_newsletter user_input llm w =
  (EmptyString,
   shown (st_error ("Error generating newsletter: " ++ e))
     (sent (Template.NEWSLETTER user_input) w)).
Proof. intros H. unfold generate_newsletter, bind, chain_run. now rewrite H. Qed.

Lemma enhance_newsletter_returned (current_content : string) (llm : Llm) (w : World) (x : string) :
  llm (prompts w) (Template.ENTERTAINMENT current_content) = Returned x ->
  enhance_newsletter current_content llm w =
  (x, sent (Template.ENTERTAINMENT current_content) w).
Proof. intros H. unfold enhance_newsletter, bind, chain_run. now rewrite H. Qed.

Lemma enhance_newsletter_raised (current_content : string) (llm : Llm) (w : World) (e : string) :
  llm (prompts w) (Template.ENTERTAINMENT current_content) = Raised e ->
  enhance_newsletter current_content llm w =
  (current_content,
   shown (st_error ("Error enhancing newsletter: " ++ e))
     (sent (Template.ENTERTAINMENT current_content) w)).
Proof. intros H. unfold enhance_newsletter, bind, chain_run. now rewrite H. Qed.

Lemma refine_newsletter_raised (current_content instructions : string) (llm : Llm)
    (w : World) (e : string) :
  llm (prompts w) (Template.REFINEMENT current_content instructions) = Raised e ->
  refine_newsletter current_content instructions llm w =
  (current_content,
   shown (st_error ("Error refining newsletter: " ++ e))
     (sent (Template.REFINEMENT current_content instructions) w)).
Proof. intros H. unfold refine_newsletter, bind, chain_run. now rewrite H. Qed.

(** ** What [main] leaves in the session state *)

Lemma main_generate (r : Run) (w : World) :
  pressed r = GenerateNewsletter ->
  main r w = display_and_edit r (exec (generate_and_enhance r) w).
Proof.
  intros Hp. unfold main, is_pressed. rewrite Hp. unfold when, bind, ret, exec.
  destruct (generate_and_enhance r w) as [[] w']. reflexivity.
Qed.

Lemma display_and_edit_idle (r : Run) (w : World) :
  is_pressed r RefineContent = false ->
  newsletter_content (exec (display_and_edit r) w) = newsletter_content w /\
  prompts (exec (display_and_edit r) w) = prompts w /\
  requests (exec (display_and_edit r) w) = requests w /\
  (forall x, In x (screen w) -> In x (screen (exec (display_and_edit r) w))).
Proof.
  intros Hp. unfold display_and_edit, exec, bind, get_newsletter_content. simpl.
  destruct (newsletter_content w) eqn:E; simpl; [now rewrite E|].
  rewrite Hp. unfold when, ret, show, export_to_markdown, bind, get_newsletter_content.
  destruct (is_pressed r ExportToMarkdown); simpl; repeat split; try assumption;
    intros x Hx; repeat (apply in_or_app; left); assumption.
Qed.

Lemma main_refine (r : Run) (w : World) :
  pressed r = RefineContent ->
  main r w = display_and_edit r w.
Proof.
  intros Hp. unfold main, is_pressed. rewrite Hp. reflexivity.
Qed.

Lemma main_search (r : Run) (w : World) :
  pressed r = SearchNews ->
  main r w = display_and_edit r (exec (search_news r) w).
Proof.
  intros Hp. unfold main, is_pressed. rewrite Hp. unfold when, bind, ret, exec.
  destruct (search_news r w) as [[] w']. reflexivity.
Qed.

(** What [generate_and_enhance] stores, by the outcomes of its two calls. *)
Lemma generate_and_enhance_content (r : Run) (w : World) :
  newsletter_content (exec (generate_and_enhance r) w) =
  match enhancement_of r w with
  | Returned x => x
  | Raised _ => initial_content_of r w
  end.
Proof.
  unfold exec, generate_and_enhance, bind, enhancement_of, initial_content_of.
  unfold generate_newsletter, enhance_newsletter, bind, chain_run.
  destruct (llm_of r (prompts w) (Template.NEWSLETTER (user_input r))) as [x|e]; simpl;
    match goal with |- context [llm_of r ?h ?p] => destruct (llm_of r h p) end;
    reflexivity.
Qed.

Lemma generate_and_enhance_errors (r : Run) (w : World) :
  (forall e, llm_of r (prompts w) (Template.NEWSLETTER (user_input r)) = Raised e ->
     In (st_error ("Error generating newsletter: " ++ e))
        (screen (exec (generate_and_enhance r) w))) /\
  (forall e, enhancement_of r w = Raised e ->
     In (st_error ("Error enhancing newsletter: " ++ e))
        (screen (exec (generate_and_enhance r) w))).
Proof.
  unfold exec, generate_and_enhance, bind, enhancement_of, initial_content_of.
  unfold generate_newsletter, enhance_newsletter, bind, chain_run.
  destruct (llm_of r (prompts w) (Template.NEWSLETTER (user_input r))) as [x|e0]; simpl;
    match goal with |- context [llm_of r ?h ?p] => destruct (llm_of r h p) end;
    simpl; split; intros e [= <-]; rewrite ?in_app_iff; simpl; tauto.
Qed.

Lemma fetch_news_articles_requests (query : string) (api_key : option string)
    (http : Http) (w : World) :
  requests (exec (fetch_news_articles query api_key http) w) =
  (requests w ++ [news_url query api_key])%list.
Proof.
  unfold exec, fetch_news_articles, bind, requests_get.
  destruct (http (requests w) (news_url query api_key)) as [resp|e]; simpl;
    [destruct (http_error resp)|]; reflexivity.
Qed.

(** A failed request is reported and counts as no articles. *)
Lemma fetch_news_articles_failed (query : string) (api_key : option string)
    (http : Http) (w : World) (e : string) :
  http (requests w) (news_url query api_key) = Raised e \/
  (exists resp, http (requests w) (news_url query api_key) = Returned resp /\
                http_error resp = Some e) ->
  fetch_news_articles query api_key http w =
  ([], shown (st_error ("Error fetching news articles: " ++ e))
         (fetched (news_url query api_key) w)).
Proof.
  unfold fetch_news_articles, bind, requests_get.
  intros [H|[resp [H He]]]; rewrite H; [|rewrite He]; reflexivity.
Qed.

(** *** Computations that make no request *)

Lemma exec_bind {A B : Type} (m : App A) (k : A -> App B) (w : World) :
  exec (bind m k) w = exec (k (eval m w)) (exec m w).
Proof. unfold exec, eval, bind. now destruct (m w). Qed.

Lemma keeps_requests_ret {A : Type} (a : A) : keeps_requests (ret a).
Proof. intros w; reflexivity. Qed.

Lemma keeps_requests_show (x : widget) : keeps_requests (show x).
Proof. intros w; reflexivity. Qed.

Lemma keeps_requests_bind {A B : Type} (m : App A) (k : A -> App B) :
  keeps_requests m -> (forall a, keeps_requests (k a)) -> keeps_requests (bind m k).
Proof. intros Hm Hk w. now rewrite exec_bind, Hk, Hm. Qed.

Lemma keeps_requests_for_each {A : Type} (f : A -> App unit) (l : list A) :
  (forall x, keeps_requests (f x)) -> keeps_requests (for_each f l).
Proof.
  intros Hf; induction l as [|x l IH]; simpl.
  - apply keeps_requests_ret.
  - apply keeps_requests_bind; [apply Hf | intros _; exact IH].
Qed.

Lemma keeps_requests_show_article (a : Article) : keeps_requests (show_article a).
Proof.
  unfold show_article.
  repeat (apply keeps_requests_bind; [apply keeps_requests_show | intros _]).
  apply keeps_requests_show.
Qed.

Lemma keeps_requests_show_org (e : string * nat) : keeps_requests (show_org e).
Proof. destruct e; apply keeps_requests_show. Qed.

Lemma search_news_requests (r : Run) (w : World) :
  requests (exec (search_news r) w) =
  (requests w ++ [news_url (news_query r) (NEWS_API_KEY r)])%list.
Proof.
  pose proof (fetch_news_articles_requests (news_query r) (NEWS_API_KEY r) (http_of r) w)
    as Hf.
  unfold search_news. rewrite exec_bind, <- Hf. clear Hf.
  generalize (exec (fetch_news_articles (news_query r) (NEWS_API_KEY r) (http_of r)) w).
  destruct (eval (fetch_news_articles (news_query r) (NEWS_API_KEY r) (http_of r)) w)
    as [|a articles]; intros v.
  - apply keeps_requests_show.
  - revert v. change (keeps_requests
      (show (st_markdown "#### Top News Organizations") ;;
       for_each show_org (get_top_news_orgs (a :: articles)) ;;
       show (st_markdown "#### Articles") ;;
       for_each show_article (a :: articles))).
    apply keeps_requests_bind; [apply keeps_requests_show | intros _].
    apply keeps_requests_bind;
      [apply keeps_requests_for_each, keeps_requests_show_org | intros _].
    apply keeps_requests_bind; [apply keeps_requests_show | intros _].
    apply keeps_requests_for_each, keeps_requests_show_article.
Qed.

(** * Part III: the properties of the specification *)

(** ** The text filter *)

(** C6.  [remove_think_content] takes out every shortest span from a
    [<think>] to the next [</think>], markers included, from left to right:
    on any text whose first start tag is closed, the text in front is kept,
    the span is dropped and the scan goes on behind it (the second pass then
    runs on what is kept if tags remain there); a text made of zero or more
    such spans between tag-free pieces comes back as its pieces; the three
    sample texts give ["ac"], ["ace"] and the text itself; and a text with no
    tag is returned as it is.  Every text has one of three shapes, no start
    tag, a start tag that is never closed, or a first start tag with its
    nearest end tag, and the first two are returned as they are. *)
Theorem C6_strip_removes_shortest_spans :
  (forall p m r : string,
     Text.contains START p = false ->
     Text.contains END_ m = false ->
     primary (p ++ START ++ m ++ END_ ++ r) = p ++ primary r /\
     remove_think_content (p ++ START ++ m ++ END_ ++ r) =
     (let kept := p ++ primary r in
      if Text.contains START kept || Text.contains END_ kept
      then Re.sub Re.dotall pattern_dot kept
      else kept)) /\
  (forall (p0 : string) (spans : list (string * string)),
     Forall (fun sp => Text.contains END_ (fst sp) = false) spans ->
     Text.contains START (Spec.without_spans p0 spans) = false ->
     remove_think_content (Spec.with_spans p0 spans) = Spec.without_spans p0 spans) /\
  remove_think_content "a<think>b</think>c" = "ac" /\
  remove_think_content "a<think>b</think>c<think>d</think>e" = "ace" /\
  (forall x : string,
     Text.contains START x = false ->
     Text.contains END_ x = false ->
     remove_think_content x = x) /\
  remove_think_content "no markers here" = "no markers here" /\
  (forall x : string,
     (Text.contains START x = false /\ remove_think_content x = x) \/
     (exists p t, x = p ++ START ++ t /\
        Text.contains START p = false /\ Text.contains END_ t = false /\
        remove_think_content x = x) \/
     (exists p m r, x = p ++ START ++ m ++ END_ ++ r /\
        Text.contains START p = false /\ Text.contains END_ m = false)).
Proof.
  split; [|split; [|split; [|split; [|split; [|split]]]]].
  - intros p m r Hp Hm.
    pose proof (primary_pair p m r Hp Hm) as E. split; [exact E|].
    unfold remove_think_content. cbv zeta. fold (primary (p ++ START ++ m ++ END_ ++ r)).
    rewrite E. reflexivity.
  - intros p0 spans Hm Hclean.
    pose proof (primary_spans spans p0 Hm Hclean) as E.
    rewrite remove_think_content_idle; rewrite E; [reflexivity|].
    now rewrite Hclean.
  - vm_compute; reflexivity.
  - vm_compute; reflexivity.
  - intros x Hs He. apply remove_think_content_no_tags. now rewrite Hs.
  - vm_compute; reflexivity.
  - intros x.
    destruct (text_shape x) as [H|[(p & t & E & Hp & Ht)|(p & m & r & E & Hp & Hm)]].
    + left. split; [exact H|]. apply remove_think_content_no_tags. now rewrite H.
    + right; left. exists p, t. repeat (split; [assumption|]).
      subst x. now apply remove_think_content_unclosed.
    + right; right. now exists p, m, r.
Qed.

(** C10.  The second pass removes nothing unless a start tag and an end tag
    both remain after the primary pass; so on the nested text
    [<think>a<think>b</think>c</think>] the primary pass leaves [c</think>],
    the second pass keeps it, and the result holds a lone end tag. *)
Theorem C10_fallback_needs_both_markers :
  (forall c : string,
     Text.contains START c && Text.contains END_ c = false ->
     Re.sub Re.dotall pattern_dot c = c) /\
  (forall x : string,
     Text.contains START (primary x) && Text.contains END_ (primary x) = false ->
     remove_think_content x = primary x) /\
  primary Examples.nested = "c</think>" /\
  remove_think_content Examples.nested = "c</think>" /\
  Text.contains START (remove_think_content Examples.nested) = false /\
  Text.contains END_ (remove_think_content Examples.nested) = true.
Proof.
  split; [|split; [|split; [|split; [|split]]]].
  - intros c H. rewrite passes_agree. now apply second_pass_idle.
  - apply remove_think_content_idle.
  - vm_compute; reflexivity.
  - vm_compute; reflexivity.
  - vm_compute; reflexivity.
  - vm_compute; reflexivity.
Qed.

(** C5, as the claim has it: whenever a tag remains after the primary pass,
    the result is that text with everything from its first start tag to its
    last end tag removed.  It fails on
    [<thi<think>x</think>nk>a</think>b</think>]: the primary pass leaves
    [<think>a</think>b</think>], the greedy removal would leave nothing, and
    the filter returns [b</think>]. *)
Lemma C5_counterexample :
  let x := Examples.spliced_once in
  primary x = "<think>a</think>b</think>" /\
  tags_remain (primary x) = true /\
  Spec.greedy_pass (primary x) = "" /\
  remove_think_content x = "b</think>" /\
  remove_think_content x <> Spec.greedy_pass (primary x).
Proof.
  intros x.
  assert (E1 : primary x = "<think>a</think>b</think>") by (vm_compute; reflexivity).
  assert (E2 : remove_think_content x = "b</think>") by (vm_compute; reflexivity).
  rewrite E1, E2.
  split; [reflexivity|]. split; [reflexivity|]. split; [reflexivity|].
  split; [reflexivity|]. discriminate.
Qed.

(** C5, amended.  When a tag remains after the primary pass, the second
    pass repeats the removal of the primary pass on that text: its pattern
    with [re.DOTALL] matches exactly what the primary pattern matches, the
    shortest span from a start tag to the next end tag, from left to right. *)
Theorem C5_second_pass_repeats_primary (x : string) :
  Text.contains START (primary x) || Text.contains END_ (primary x) = true ->
  (forall s : string, Re.sub Re.dotall pattern_dot s = Re.sub Re.no_flags pattern s) /\
  remove_think_content x = primary (primary x).
Proof.
  intros H. change (tags_remain (primary x) = true) in H.
  split; [exact passes_agree|].
  rewrite remove_think_content_unfold. now rewrite H.
Qed.

(** C5, amended, on the text of the counterexample. *)
Lemma C5_witness :
  Text.contains START (primary Examples.spliced_once)
    || Text.contains END_ (primary Examples.spliced_once) = true /\
  remove_think_content Examples.spliced_once = primary (primary Examples.spliced_once).
Proof.
  split; [vm_compute; reflexivity|].
  apply (C5_second_pass_repeats_primary Examples.spliced_once).
  vm_compute; reflexivity.
Defined.

(** C1 fails on the code.  On
    [<thi<thi<think>x</think>nk>y</think>nk>z</think>] each pass brings a new
    pair of tags about: the filter returns [<think>z</think>], and the filter
    applied to that returns the empty text. *)
Theorem C1_filter_twice_differs :
  remove_think_content Examples.spliced_twice = "<think>z</think>" /\
  remove_think_content (remove_think_content Examples.spliced_twice) = "" /\
  remove_think_content (remove_think_content Examples.spliced_twice)
    <> remove_think_content Examples.spliced_twice.
Proof.
  assert (E1 : remove_think_content Examples.spliced_twice = "<think>z</think>")
    by (vm_compute; reflexivity).
  rewrite E1.
  assert (E2 : remove_think_content "<think>z</think>" = "") by (vm_compute; reflexivity).
  rewrite E2. split; [reflexivity|]. split; [reflexivity|]. discriminate.
Qed.

(** C4 fails on the code.  Exported at any time, the same text keeps a
    whole think span behind the header. *)
Theorem C4_export_keeps_a_span (now : datetime) :
  create_markdown now Examples.spliced_twice = markdown_header now ++ "<think>z</think>" /\
  marker_pair_in (create_markdown now Examples.spliced_twice).
Proof.
  assert (E0 : remove_think_content Examples.spliced_twice = "<think>z</think>")
    by (vm_compute; reflexivity).
  assert (E : create_markdown now Examples.spliced_twice
              = markdown_header now ++ "<think>z</think>").
  { unfold create_markdown. rewrite E0. reflexivity. }
  split; [exact E|].
  rewrite E. exists (markdown_header now), "z", "". reflexivity.
Qed.

(** ** The draft in the session state *)

(** C2, as the claim has it: after a Generate run in which both calls
    returned, the stored draft holds no marker pair.  It fails with a model
    that wraps its reasoning in think tags: the stored draft is the model's
    text as it came. *)
Lemma C2_counterexample :
  let r := Examples.press GenerateNewsletter Examples.thinking_model in
  let w := exec (main r) initial_world in
  llm_of r (prompts initial_world) (Template.NEWSLETTER (user_input r))
    = Returned "<think>plan</think>Headline" /\
  enhancement_of r initial_world = Returned "<think>plan</think>Headline" /\
  newsletter_content w = "<think>plan</think>Headline" /\
  marker_pair_in (newsletter_content w).
Proof.
  intros r w.
  assert (E : newsletter_content w = "<think>plan</think>Headline")
    by (vm_compute; reflexivity).
  split; [reflexivity|]. split; [reflexivity|]. split; [exact E|].
  rewrite E. exists "", "plan", "Headline". reflexivity.
Qed.

(** C2, amended.  After a Generate run in which the generation call
    returned [raw] and the enhancement call on [raw] returned [enhanced], the
    stored draft is [enhanced] as the model gave it; no filter is applied on
    the way, the filter runs in [create_markdown] only. *)
Theorem C2_draft_is_raw_enhancement (r : Run) (w : World) (raw enhanced : string) :
  pressed r = GenerateNewsletter ->
  llm_of r (prompts w) (Template.NEWSLETTER (user_input r)) = Returned raw ->
  llm_of r (prompts w ++ [Template.NEWSLETTER (user_input r)])%list
    (Template.ENTERTAINMENT raw) = Returned enhanced ->
  newsletter_content (exec (main r) w) = enhanced.
Proof.
  intros Hp Hgen Henh.
  unfold exec at 1. rewrite (main_generate r w Hp). fold (exec (display_and_edit r)
    (exec (generate_and_enhance r) w)).
  destruct (display_and_edit_idle r (exec (generate_and_enhance r) w)) as [E _].
  { unfold is_pressed. now rewrite Hp. }
  rewrite E, generate_and_enhance_content.
  unfold enhancement_of, initial_content_of. now rewrite Hgen, Henh.
Qed.

(** C2, amended, for the model that wraps its reasoning in think tags. *)
Lemma C2_witness :
  newsletter_content
    (exec (main (Examples.press GenerateNewsletter Examples.thinking_model)) initial_world)
  = "<think>plan</think>Headline".
Proof.
  apply (C2_draft_is_raw_enhancement
           (Examples.press GenerateNewsletter Examples.thinking_model) initial_world
           "<think>plan</think>Headline" "<think>plan</think>Headline");
    reflexivity.
Defined.

(** C3, as the claim has it: when one of the two calls of a Generate run
    fails, the stored content is what it was before, or empty.  It fails
    when the model answers the generation call and is gone at the
    enhancement call: the session started empty and now holds the raw draft. *)
Lemma C3_counterexample :
  let r := Examples.press GenerateNewsletter Examples.model_lost_after_draft in
  let w := exec (main r) initial_world in
  enhancement_of r initial_world = Raised "connection refused" /\
  newsletter_content w = "Headline" /\
  newsletter_content w <> newsletter_content initial_world /\
  newsletter_content w <> "".
Proof.
  intros r w.
  assert (E : newsletter_content w = "Headline") by (vm_compute; reflexivity).
  rewrite E. split; [reflexivity|]. split; [reflexivity|].
  split; discriminate.
Qed.

(** C3, amended.  In a Generate run every failing call is reported to the
    user, and when the enhancement call fails the stored content becomes
    the text that was handed to it: the raw draft when the generation call
    returned, the empty text when that call failed too. *)
Theorem C3_failed_calls_in_generate (r : Run) (w : World) :
  pressed r = GenerateNewsletter ->
  let w' := exec (main r) w in
  (forall e,
     llm_of r (prompts w) (Template.NEWSLETTER (user_input r)) = Raised e ->
     In (st_error ("Error generating newsletter: " ++ e)) (screen w')) /\
  (forall e,
     enhancement_of r w = Raised e ->
     In (st_error ("Error enhancing newsletter: " ++ e)) (screen w') /\
     newsletter_content w' = initial_content_of r w).
Proof.
  intros Hp w'. subst w'.
  unfold exec at 1 2 3. rewrite (main_generate r w Hp).
  fold (exec (display_and_edit r) (exec (generate_and_enhance r) w)).
  destruct (display_and_edit_idle r (exec (generate_and_enhance r) w))
    as (Ec & _ & _ & Es).
  { unfold is_pressed. now rewrite Hp. }
  destruct (generate_and_enhance_errors r w) as [Hg He].
  split.
  - intros e H. now apply Es, Hg.
  - intros e H. split; [now apply Es, He|].
    rewrite Ec, generate_and_enhance_content. now rewrite H.
Qed.

(** C3, amended, for the model that is gone at the enhancement call. *)
Lemma C3_witness :
  let r := Examples.press GenerateNewsletter Examples.model_lost_after_draft in
  In (st_error "Error enhancing newsletter: connection refused")
     (screen (exec (main r) initial_world)) /\
  newsletter_content (exec (main r) initial_world) = "Headline".
Proof.
  intros r.
  exact (proj2 (C3_failed_calls_in_generate r initial_world eq_refl)
           "connection refused" eq_refl).
Defined.

(** C7.  When the model call raises, [refine_newsletter] and
    [enhance_newsletter] return the content they were given, whatever the
    content and the instructions; and a Refine run then leaves the stored
    draft as it was. *)
Theorem C7_failed_call_keeps_content
    (llm : Llm) (w : World) (current_content instructions e : string) :
  (llm (prompts w) (Template.REFINEMENT current_content instructions) = Raised e ->
   eval (refine_newsletter current_content instructions llm) w = current_content) /\
  (llm (prompts w) (Template.ENTERTAINMENT current_content) = Raised e ->
   eval (enhance_newsletter current_content llm) w = current_content) /\
  (forall r : Run,
     pressed r = RefineContent ->
     llm_of r (prompts w)
       (Template.REFINEMENT (newsletter_content w) (refinement_instructions r)) = Raised e ->
     newsletter_content (exec (main r) w) = newsletter_content w).
Proof.
  split; [|split].
  - intros H. unfold eval. now rewrite (refine_newsletter_raised _ _ _ _ _ H).
  - intros H. unfold eval. now rewrite (enhance_newsletter_raised _ _ _ _ H).
  - intros r Hp H. unfold exec. rewrite (main_refine r w Hp).
    unfold display_and_edit, bind, get_newsletter_content.
    destruct (newsletter_content w) as [|a s] eqn:E; [simpl; now rewrite E|].
    unfold is_pressed. rewrite Hp. unfold when, show, ret, refine_content, bind,
      get_newsletter_content. cbn [newsletter_content shown].
    rewrite E.
    match goal with
    | |- context [refine_newsletter ?c ?i ?l ?v] =>
        rewrite (refine_newsletter_raised c i l v e)
    end.
    + reflexivity.
    + cbn [prompts shown]. exact H.
Qed.

(** C7 for a model that cannot be reached and a session that holds a
    draft. *)
Lemma C7_witness :
  let r := Examples.press RefineContent Examples.model_down in
  eval (refine_newsletter "Headline" "Shorter" Examples.model_down) Examples.drafted
    = "Headline" /\
  eval (enhance_newsletter "Headline" Examples.model_down) Examples.drafted = "Headline" /\
  newsletter_content (exec (main r) Examples.drafted) = "Headline".
Proof.
  intros r.
  pose proof (C7_failed_call_keeps_content Examples.model_down Examples.drafted
                "Headline" "Shorter" "connection refused") as [H1 [H2 _]].
  pose proof (C7_failed_call_keeps_content Examples.model_down Examples.drafted
                "Headline" (refinement_instructions r) "connection refused")
    as [_ [_ H3]].
  split; [exact (H1 eq_refl)|]. split; [exact (H2 eq_refl)|].
  exact (H3 r eq_refl eq_refl).
Defined.

(** ** The news search *)

(** C8, as the claim has it: with no API key in the environment, a Search
    run makes no network call.  It fails: the run fetches one URL, whose
    [apiKey] is the text [None]. *)
Lemma C8_counterexample :
  let r := Examples.press SearchNews Examples.model_down in
  let w := exec (main r) initial_world in
  NEWS_API_KEY r = None /\
  requests w =
    ["https://newsapi.org/v2/everything?q=AI and Data Analytics&sortBy=publishedAt&pageSize=5&apiKey=None"]%list /\
  requests w <> requests initial_world.
Proof.
  intros r w.
  assert (E : requests w =
    ["https://newsapi.org/v2/everything?q=AI and Data Analytics&sortBy=publishedAt&pageSize=5&apiKey=None"]%list)
    by (vm_compute; reflexivity).
  rewrite E. split; [reflexivity|]. split; [reflexivity|]. discriminate.
Qed.

(** C8, amended.  With no API key in the environment a Search run is not
    stopped: it fetches exactly one URL, built from the query with the text
    [None] as [apiKey].  When that request fails, by an exception of
    [requests.get] or by an error status, the failure is reported to the
    user, the search counts as one that found no articles, and the stored
    draft stays as it was. *)
Theorem C8_missing_key_still_requests (r : Run) (w : World) :
  NEWS_API_KEY r = None ->
  pressed r = SearchNews ->
  let u := "https://newsapi.org/v2/everything?q=" ++ news_query r
             ++ "&sortBy=publishedAt&pageSize=5&apiKey=None" in
  let w' := exec (main r) w in
  requests w' = (requests w ++ [u])%list /\
  (forall e,
     http_of r (requests w) u = Raised e \/
     (exists resp, http_of r (requests w) u = Returned resp /\ http_error resp = Some e) ->
     In (st_error ("Error fetching news articles: " ++ e)) (screen w') /\
     In (st_info "No articles found for the given topic.") (screen w') /\
     newsletter_content w' = newsletter_content w).
Proof.
  intros Hk Hp u w'. subst w'.
  assert (Eu : news_url (news_query r) (NEWS_API_KEY r) = u) by (now rewrite Hk).
  unfold exec at 1 2 3 4. rewrite (main_search r w Hp).
  fold (exec (display_and_edit r) (exec (search_news r) w)).
  destruct (display_and_edit_idle r (exec (search_news r) w)) as (Ec & _ & Er & Es).
  { unfold is_pressed. now rewrite Hp. }
  split.
  - now rewrite Er, search_news_requests, Eu.
  - intros e H. rewrite <- Eu in H.
    assert (Ew : exec (search_news r) w =
                 shown (st_info "No articles found for the given topic.")
                   (shown (st_error ("Error fetching news articles: " ++ e))
                      (fetched (news_url (news_query r) (NEWS_API_KEY r)) w))).
    { unfold exec, search_news, bind.
      now rewrite (fetch_news_articles_failed _ _ _ _ _ H). }
    split; [|split].
    + apply Es. rewrite Ew. cbn [screen shown]. rewrite !in_app_iff. simpl. tauto.
    + apply Es. rewrite Ew. cbn [screen shown]. rewrite !in_app_iff. simpl. tauto.
    + rewrite Ec, Ew. reflexivity.
Qed.

(** C8, amended, for a run with no key and no network. *)
Lemma C8_witness :
  let r := Examples.press SearchNews Examples.model_down in
  let u := "https://newsapi.org/v2/everything?q=" ++ news_query r
             ++ "&sortBy=publishedAt&pageSize=5&apiKey=None" in
  requests (exec (main r) initial_world) = [u]%list.
Proof.
  intros r u.
  exact (proj1 (C8_missing_key_still_requests r initial_world eq_refl eq_refl)).
Defined.

(** C9.  [get_top_news_orgs] returns source names, each once, paired with
    the number of articles from that source; the entries stand by descending
    count, and among equal counts the source met first comes first; there
    are three of them, or as many as there are distinct sources if fewer;
    every source left out ranks behind every entry; and the sources
    [A, A, B, C, A] give [(A, 3), (B, 1), (C, 1)]. *)
Theorem C9_top_sources_ranking (articles : list Article) :
  let sources := map source_name articles in
  let top := get_top_news_orgs articles in
  (forall name n, In (name, n) top ->
     In name sources /\ n = count_occ string_dec sources name) /\
  NoDup (map fst top) /\
  StronglySorted (Spec.ranks_before sources) top /\
  List.length top = Nat.min 3 (List.length (nodup string_dec sources)) /\
  (forall name, In name sources -> ~ In name (map fst top) ->
     forall e, In e top ->
       Spec.ranks_before sources e (name, count_occ string_dec sources name)) /\
  (sources = ["A"; "A"; "B"; "C"; "A"]%list ->
     top = [("A", 3); ("B", 1); ("C", 1)]%list).
Proof.
  intros sources top.
  set (c := Counter.of_list sources).
  set (sorted := Counter.sorted_desc c).
  assert (Etop : top = firstn 3 sorted) by reflexivity.
  assert (Hperm : Permutation sorted c) by apply CounterFacts.sorted_desc_perm.
  assert (Hsplit : sorted = (top ++ skipn 3 sorted)%list)
    by (rewrite Etop; symmetry; apply firstn_skipn).
  assert (Hsorted : StronglySorted (Spec.ranks_before sources) sorted)
    by apply CounterFacts.sorted_desc_sorted, CounterFacts.of_list_order.
  assert (Hin : forall e, In e top -> In e c).
  { intros e He. apply (Permutation_in _ Hperm). rewrite Hsplit.
    apply in_or_app. now left. }
  rewrite Hsplit in Hsorted.
  apply CounterFacts.StronglySorted_app_inv in Hsorted as [Htop Hrest].
  split; [|split; [|split; [|split; [|split]]]].
  - intros name n H. apply Hin in H.
    destruct (CounterFacts.of_list_In sources name n H) as [Hn Hs]. now split.
  - apply (NoDup_app_remove_r _ (map fst (skipn 3 sorted))).
    rewrite <- map_app, <- Hsplit.
    apply (Permutation_NoDup (Permutation_sym (Permutation_map fst Hperm))).
    apply CounterFacts.of_list_NoDup.
  - exact Htop.
  - rewrite Etop, length_firstn. f_equal.
    rewrite (Permutation_length Hperm), <- (length_map fst).
    apply Permutation_length, NoDup_Permutation.
    + apply CounterFacts.of_list_NoDup.
    + apply NoDup_nodup.
    + intros k. rewrite nodup_In. apply CounterFacts.of_list_keys.
  - intros name Hname Hnot e He. apply Hrest; [exact He|].
    assert (Hc : In (name, count_occ string_dec sources name) c).
    { apply CounterFacts.of_list_keys in Hname.
      apply in_map_iff in Hname as [[k n] [Hk Hkn]]. simpl in Hk; subst k.
      now destruct (CounterFacts.of_list_In _ _ _ Hkn) as [-> _]. }
    apply (Permutation_in _ (Permutation_sym Hperm)) in Hc.
    rewrite Hsplit in Hc. apply in_app_or in Hc as [Hc|Hc]; [|exact Hc].
    exfalso; apply Hnot. now apply (in_map fst) in Hc.
  - intros E. subst top. unfold get_top_news_orgs. fold sources. rewrite E. reflexivity.
Qed.

(** C9 on five articles from the sources [A, A, B, C, A]. *)
Lemma C9_witness :
  get_top_news_orgs Examples.five_articles = [("A", 3); ("B", 1); ("C", 1)]%list.
Proof.
  exact (proj2 (proj2 (proj2 (proj2 (proj2
           (C9_top_sources_ranking Examples.five_articles))))) eq_refl).
Defined.

(** * Part IV: further properties of the program *)

(** ** Texts with characters left out *)

Lemma subseq_refl (s : string) : subseq s s.
Proof. induction s; constructor; assumption. Qed.

Lemma subseq_skip (u s t : string) : subseq s t -> subseq s (u ++ t).
Proof. intros H; induction u; simpl; [assumption | now constructor]. Qed.

Lemma subseq_app (u s t : string) : subseq s t -> subseq (u ++ s) (u ++ t).
Proof. intros H; induction u; simpl; [assumption | now constructor]. Qed.

Lemma subseq_trans (a b c : string) : subseq a b -> subseq b c -> subseq a c.
Proof.
  intros Hab Hbc; revert a Hab.
  induction Hbc as [|x b c Hbc IH|x b c Hbc IH]; intros a Hab.
  - exact Hab.
  - inversion Hab; subst.
    + constructor. now apply IH.
    + apply subseq_drop. now apply IH.
  - apply subseq_drop. now apply IH.
Qed.

Lemma subseq_length (s t : string) : subseq s t -> String.length s <= String.length t.
Proof. induction 1; simpl; lia. Qed.

(** A match takes a front part of the text. *)
Lemma match_here_suffix (fl : Re.flags) (p : Re.pattern) (s r : string) :
  Re.match_here fl p s = Some r -> exists u, s = u ++ r.
Proof.
  revert s r; induction p as [|[m|cs] p IH]; intros s r.
  - intros [= ->]. now exists EmptyString.
  - rewrite ReFacts.match_here_lit.
    destruct (Text.strip_prefix m s) as [s'|] eqn:E; [|discriminate].
    intros H. apply IH in H as [u ->].
    apply TextFacts.strip_prefix_Some in E. subst s.
    exists (m ++ u). now rewrite TextFacts.append_assoc.
  - induction s as [|c s IHs]; rewrite ReFacts.match_here_star.
    + destruct (Re.match_here fl p EmptyString) eqn:E; [|discriminate].
      intros [= <-]. now apply IH.
    + destruct (Re.match_here fl p (String c s)) eqn:E.
      * intros [= <-]. now apply IH.
      * destruct (Re.cset_match fl cs c); [|discriminate].
        intros H. apply IHs in H as [u ->]. now exists (String c u).
Qed.

Lemma sub_subseq (fl : Re.flags) (p : Re.pattern) (s : string) :
  subseq (Re.sub fl p s) s.
Proof.
  induction s as [s IH] using ReFacts.length_ind.
  destruct s as [|c s']; [constructor|].
  rewrite ReFacts.sub_cons.
  assert (Hk : subseq (String c (Re.sub fl p s')) (String c s')).
  { constructor. apply IH. simpl; lia. }
  destruct (Re.match_here fl p (String c s')) as [r|] eqn:E; [|exact Hk].
  destruct (Nat.ltb_spec (String.length r) (String.length (String c s'))) as [Hlt|];
    [|exact Hk].
  apply match_here_suffix in E as [u E]. rewrite E.
  apply subseq_skip, IH, Hlt.
Qed.

Lemma remove_think_content_subseq (text : string) :
  subseq (remove_think_content text) text.
Proof.
  unfold remove_think_content. cbv zeta.
  destruct (_ || _).
  - eapply subseq_trans; apply sub_subseq.
  - apply sub_subseq.
Qed.

(** X1.  [remove_think_content] only deletes: its result is the text with
    some characters left out, in their order, and so is never longer than
    the text. *)
Theorem X1_filter_only_deletes (text : string) :
  subseq (remove_think_content text) text /\
  String.length (remove_think_content text) <= String.length text.
Proof.
  split; [|apply subseq_length]; apply remove_think_content_subseq.
Qed.

(** ** Marker pairs *)

Lemma contains_intro (m a b : string) : Text.contains m (a ++ m ++ b) = true.
Proof.
  induction a as [|c a IH].
  - destruct b; cbn [append Text.contains]; unfold Text.starts_with.
    + destruct (m ++ EmptyString) eqn:E; cbn [Text.contains]; unfold Text.starts_with;
        rewrite <- E, TextFacts.strip_prefix_app; reflexivity.
    + destruct (m ++ String a b) eqn:E; cbn [Text.contains]; unfold Text.starts_with;
        rewrite <- E, TextFacts.strip_prefix_app; reflexivity.
  - change (String c a ++ m ++ b) with (String c (a ++ m ++ b)).
    cbn [Text.contains]. rewrite IH. apply orb_true_r.
Qed.

Lemma no_start_no_pair (y : string) :
  Text.contains START y = false -> ~ marker_pair_in y.
Proof.
  intros H (a & m & b & ->). now rewrite contains_intro in H.
Qed.

(** A first start tag that no end tag follows makes no pair. *)
Lemma unclosed_no_pair (p t : string) :
  Text.contains START p = false ->
  Text.contains END_ t = false ->
  ~ marker_pair_in (p ++ START ++ t).
Proof.
  intros Hp Ht (a & m & b & E). revert a E.
  induction p as [|d p IH]; intros a E.
  - assert (H : Text.contains END_ (START ++ t) = true).
    { cbn [append] in E. rewrite E.
      replace (a ++ START ++ m ++ END_ ++ b) with ((a ++ START ++ m) ++ END_ ++ b)
        by now rewrite !TextFacts.append_assoc.
      apply contains_intro. }
    rewrite (END_not_in_START t Ht) in H. discriminate.
  - apply TextFacts.contains_cons in Hp as [Hw Hp].
    destruct a as [|c a].
    + assert (Hs : Text.starts_with START (String d p ++ START ++ t) = true).
      { rewrite E. cbn [append]. unfold Text.starts_with.
        now rewrite (TextFacts.strip_prefix_app START (m ++ END_ ++ b)). }
      apply (TextFacts.no_straddle "<" "think>" d p t fresh_START) in Hs.
      unfold START in Hw. congruence.
    + injection E as _ E. now apply (IH Hp a).
Qed.

(** X2.  [remove_think_content] returns a text as it is exactly when the
    text holds no marker pair, a start tag with an end tag somewhere behind
    it; a text that holds one comes back strictly shorter. *)
Theorem X2_filter_fixed_points (y : string) :
  (remove_think_content y = y <-> ~ marker_pair_in y) /\
  (marker_pair_in y -> String.length (remove_think_content y) < String.length y).
Proof.
  assert (Hshort : marker_pair_in y ->
                   String.length (remove_think_content y) < String.length y).
  { intros Hpair.
    destruct (text_shape y) as [H|[(p & t & -> & Hp & Ht)|(p & m & r & -> & Hp & Hm)]].
    - now destruct (no_start_no_pair y H).
    - now destruct (unclosed_no_pair p t Hp Ht).
    - assert (L1 : String.length (primary (p ++ START ++ m ++ END_ ++ r))
                   < String.length (p ++ START ++ m ++ END_ ++ r)).
      { rewrite (primary_pair p m r Hp Hm), !TextFacts.length_append.
        pose proof (primary_length r). simpl. lia. }
      rewrite remove_think_content_unfold.
      destruct (tags_remain _); [|exact L1].
      pose proof (primary_length (primary (p ++ START ++ m ++ END_ ++ r))). lia. }
  split; [split|exact Hshort].
  - intros E Hpair. apply Hshort in Hpair. rewrite E in Hpair. lia.
  - apply remove_think_content_fixed.
Qed.

(** ** The exported document *)

(** X3.  [create_markdown] returns the two header lines followed by a
    body that is the content with some characters left out; a content that
    holds no marker pair is the body as it stands; the document is never
    longer than header and content together. *)
Theorem X3_export_is_header_and_filtered_body (now : datetime) (content : string) :
  exists body : string,
    create_markdown now content = markdown_header now ++ body /\
    subseq body content /\
    (~ marker_pair_in content -> body = content) /\
    String.length (create_markdown now content)
      <= String.length (markdown_header now) + String.length content.
Proof.
  exists (remove_think_content content).
  pose proof (remove_think_content_subseq content) as Hs.
  pose proof (subseq_length _ _ Hs) as Hl.
  split; [reflexivity|]. split; [exact Hs|]. split.
  - apply remove_think_content_fixed.
  - change (create_markdown now content)
      with (markdown_header now ++ remove_think_content content).
    rewrite TextFacts.length_append. lia.
Qed.

(** ** What a computation leaves alone *)

Section Frames.

Context {X : Type} (component : World -> X).





End Frames.












(** ** One run of the script *)


(** X5.  An Export run on a session with a draft shows the draft between
    its headings and one download button, whose data is
    [create_markdown] of the stored draft and whose file name is
    [newsletter_] with the time stamp and [.md]; the stored draft itself,
    the prompts and the requests stay as they were. *)
Theorem X5_export_is_a_pure_read (r : Run) (w : World) :
  pressed r = ExportToMarkdown ->
  newsletter_content w <> "" ->
  let content := newsletter_content w in
  let w' := exec (main r) w in
  screen w' =
    (screen w ++
     [ st_markdown "### Generated Newsletter";
       st_markdown content;
       st_download_button "Download Markdown"
         (create_markdown (now_of r) content)
         ("newsletter_" ++ strftime_stamp (now_of r) ++ ".md")
         "text/markdown";
       st_markdown "### Refine Newsletter" ])%list /\
  newsletter_content w' = content /\
  prompts w' = prompts w /\
  requests w' = requests w.
Proof.
  intros Hp Hne content w'. subst content w'.
  unfold exec, main, is_pressed. rewrite Hp. cbn [when].
  unfold bind, ret, display_and_edit, bind, get_newsletter_content.
  destruct (newsletter_content w) as [|a s] eqn:E; [congruence|].
  unfold is_pressed. rewrite Hp. cbn [when].
  unfold export_to_markdown, show, bind, ret, get_newsletter_content.
  cbn [fst snd shown screen newsletter_content prompts requests].
  rewrite E, <- !app_assoc. repeat split.
Qed.

(** X5 on a session that holds a draft. *)
Lemma X5_witness :
  let r := Examples.press ExportToMarkdown Examples.model_down in
  newsletter_content (exec (main r) Examples.drafted) = "Headline" /\
  prompts (exec (main r) Examples.drafted) = []%list.
Proof.
  intros r.
  assert (Hne : newsletter_content Examples.drafted <> "") by discriminate.
  destruct (X5_export_is_a_pure_read r Examples.drafted eq_refl Hne) as (_ & H1 & H2 & _).
  split; [exact H1 | exact H2].
Defined.



Lemma shown_all_nil (w : World) : shown_all [] w = w.
Proof. destruct w; unfold shown_all; simpl. now rewrite app_nil_r. Qed.

Lemma shown_all_shown (x : widget) (l : list widget) (w : World) :
  shown_all l (shown x w) = shown_all (x :: l) w.
Proof. unfold shown_all, shown; simpl. now rewrite <- app_assoc. Qed.

Lemma shown_all_app (l1 l2 : list widget) (w : World) :
  shown_all l2 (shown_all l1 w) = shown_all (l1 ++ l2) w.
Proof. unfold shown_all; simpl. now rewrite <- app_assoc. Qed.







(** ** The news search on the screen *)

Lemma for_each_shows {A : Type} (f : A -> App unit) (g : A -> list widget) (l : list A) :
  (forall x w, exec (f x) w = shown_all (g x) w) ->
  forall w, exec (for_each f l) w = shown_all (flat_map g l) w.
Proof.
  intros Hf; induction l as [|x l IH]; intros w.
  - symmetry; apply shown_all_nil.
  - cbn [for_each flat_map]. now rewrite exec_bind, IH, Hf, shown_all_app.
Qed.

Lemma show_org_shows (e : string * nat) (w : World) :
  exec (show_org e) w = shown_all [org_widget e] w.
Proof. destruct e; reflexivity. Qed.

Lemma show_article_shows (a : Article) (w : World) :
  exec (show_article a) w = shown_all (article_widgets a) w.
Proof.
  unfold exec, show_article, bind, show, shown_all, shown, article_widgets.
  cbn [fst snd newsletter_content screen prompts requests].
  now rewrite <- !app_assoc.
Qed.

Lemma flat_map_single {A B : Type} (g : A -> B) (l : list A) :
  flat_map (fun x => [g x]%list) l = map g l.
Proof. induction l as [|x l IH]; simpl; [reflexivity | now rewrite IH]. Qed.

(** X9.  What a search shows when the request came back without an error
    status: for a body with no articles (no ['articles'] entry or an empty
    list) the one notice that none were found; otherwise the heading of the
    ranking, one line for each entry of [get_top_news_orgs], the heading of
    the articles and five widgets for each article, in the order of the
    response.  Exactly the one URL was fetched. *)
Theorem X9_search_results_on_screen (r : Run) (w : World) (response : Response) :
  let u := news_url (news_query r) (NEWS_API_KEY r) in
  http_of r (requests w) u = Returned response ->
  http_error response = None ->
  let articles :=
    match articles_field response with Some a => a | None => [] end in
  exec (search_news r) w =
  shown_all
    match articles with
    | [] => [st_info "No articles found for the given topic."]
    | _ :: _ =>
        [st_markdown "#### Top News Organizations"]
        ++ map org_widget (get_top_news_orgs articles)
        ++ [st_markdown "#### Articles"]
        ++ flat_map article_widgets articles
    end%list
    (fetched u w).
Proof.
  intros u Hget Hok articles.
  assert (Ef : fetch_news_articles (news_query r) (NEWS_API_KEY r) (http_of r) w
               = (articles, fetched u w)).
  { unfold fetch_news_articles, bind, requests_get. fold u. now rewrite Hget, Hok. }
  unfold search_news. rewrite exec_bind. unfold eval, exec at 2. rewrite Ef.
  cbn [fst snd]. destruct articles as [|a l]; [reflexivity|].
  rewrite !exec_bind.
  rewrite (for_each_shows show_article article_widgets) by apply show_article_shows.
  unfold exec at 1. unfold show at 1. cbn [snd].
  rewrite (for_each_shows show_org (fun e => [org_widget e])%list)
    by apply show_org_shows.
  unfold exec at 1. unfold show at 1. cbn [snd].
  rewrite shown_all_shown, shown_all_app.
  change (shown (st_markdown "#### Top News Organizations") (fetched u w))
    with (shown_all [st_markdown "#### Top News Organizations"] (fetched u w)).
  rewrite shown_all_app, flat_map_single. reflexivity.
Qed.

(** X9 for a response with five articles from three sources. *)
Lemma X9_witness :
  let r := MoreExamples.press_online SearchNews Examples.model_down in
  List.length (screen (exec (search_news r) initial_world)) = 2 + 3 + 5 * 5.
Proof.
  intros r.
  rewrite (X9_search_results_on_screen r initial_world
             {| http_error := None; articles_field := Some Examples.five_articles |}
             eq_refl eq_refl).
  reflexivity.
Defined.

(** ** Counts *)

Lemma total_count_incr (k : string) (c : Counter.t) :
  total_count (Counter.incr k c) = S (total_count c).
Proof.
  induction c as [|[k' n] c IH]; simpl; [reflexivity|].
  destruct (String.eqb k k'); simpl; [reflexivity | rewrite IH; lia].
Qed.

Lemma total_count_of_list (l : list string) :
  total_count (Counter.of_list l) = List.length l.
Proof.
  induction l as [|x l IH] using rev_ind; [reflexivity|].
  rewrite CounterFacts.of_list_snoc, total_count_incr, IH, length_app. simpl. lia.
Qed.

Lemma total_count_perm (c c' : Counter.t) :
  Permutation c c' -> total_count c = total_count c'.
Proof. induction 1; simpl; lia. Qed.

Lemma total_count_app (c c' : Counter.t) :
  total_count (c ++ c')%list = total_count c + total_count c'.
Proof. induction c as [|e c IH]; simpl; [reflexivity | rewrite IH; lia]. Qed.

(** X10.  The counts of [Counter(sources)] add up to the number of
    articles; the counts that [get_top_news_orgs] lists add up to at most
    that, and to exactly that when there are no more than three distinct
    sources. *)
Theorem X10_listed_counts_add_up (articles : list Article) :
  let sources := map source_name articles in
  let top := get_top_news_orgs articles in
  total_count (Counter.of_list sources) = List.length articles /\
  total_count top <= List.length articles /\
  (List.length (nodup string_dec sources) <= 3 -> total_count top = List.length articles).
Proof.
  intros sources top.
  set (c := Counter.of_list sources).
  set (sorted := Counter.sorted_desc c).
  assert (Hperm : Permutation sorted c) by apply CounterFacts.sorted_desc_perm.
  assert (Htotal : total_count sorted = List.length articles).
  { rewrite (total_count_perm _ _ Hperm). unfold c.
    rewrite total_count_of_list. apply length_map. }
  assert (Hsplit : sorted = (top ++ skipn 3 sorted)%list)
    by (symmetry; apply firstn_skipn).
  split; [|split].
  - unfold c in *. rewrite total_count_of_list. apply length_map.
  - rewrite <- Htotal, Hsplit at 1. rewrite total_count_app. lia.
  - intros Hfew. rewrite <- Htotal. f_equal.
    apply firstn_all2.
    rewrite (Permutation_length Hperm), <- (length_map fst).
    erewrite Permutation_length; [exact Hfew|].
    apply NoDup_Permutation.
    + apply CounterFacts.of_list_NoDup.
    + apply NoDup_nodup.
    + intros k. rewrite nodup_In. apply CounterFacts.of_list_keys.
Qed.


